(** * The streaming answer pipeline of the voice assistant

    A shallow embedding of [services/speaker/ai.ts] (class [AISpeaker]),
    of the [MyBot.chatWithStreamResponse] glue and of the [OpenAIClient]
    of [services/openai.ts], with the properties of the abort registry,
    the answer pipeline and the command router.

    Conventions.  JavaScript strings are [string]s (the UTF-8 bytes of
    the literal), [undefined]/[null] is [None], a JS object used as a
    dictionary is a [gmap string _] for its own properties, with its
    prototype beside it where it is read by key.  Calls that leave the
    modelled classes (the [Speaker] base class, the logger, the OpenAI
    SDK, the [StreamResponse] buffer) are events answered by an
    environment; every event issued is recorded, in order, in a
    trace. *)

From Stdlib Require Import String Ascii List Bool Arith Lia.
From stdpp Require Import gmap strings list.
Import ListNotations.

Local Open Scope string_scope.

(** ** JavaScript string helpers *)

(** [s.startsWith(e)] *)
Definition startsWith (s e : string) : bool := String.prefix e s.

(** [l.join("")] *)
Definition join (l : list string) : string := String.concat "" l.

(** Truthiness of a string value: [""] is falsy. *)
Definition truthy (s : string) : bool :=
  match s with EmptyString => false | String _ _ => true end.

(** Truthiness of [string | undefined]. *)
Definition truthy_opt (o : option string) : bool :=
  match o with Some s => truthy s | None => false end.

(** [xs.some(p)] *)
Definition some {A} (p : A -> bool) (xs : list A) : bool := existsb p xs.

(** [xs.find(p)] *)
Definition find_first {A} (p : A -> bool) (xs : list A) : option A := List.find p xs.

(** ** Default voice-switch prefixes ([getDefaultSwitchSpeakerPrefix]) *)

Module SwitchPrefix.

(** The two arrays mutated by the inner [generate] closure. *)
Record GenState := mkGen {
  currentSentence : list string;
  results : list string
}.

Definition push_word (w : string) (st : GenState) : GenState :=
  mkGen (currentSentence st ++ [w]) (results st).

Definition pop_word (st : GenState) : GenState :=
  mkGen (removelast (currentSentence st)) (results st).

Definition push_result (st : GenState) : GenState :=
  mkGen (currentSentence st) (results st ++ [join (currentSentence st)]).

(** [generate(currentSentence, index)]: the first argument is
    [words.slice(index)], empty exactly when [index === words.length]. *)
Fixpoint generate (rest : list (list string)) (st : GenState) : GenState :=
  match rest with
  | [] => push_result st
  | ws :: rest' =>
      fold_left
        (fun st word => pop_word (generate rest' (push_word word st)))
        ws st
  end.

Definition generateSentences (words : list (list string)) : list string :=
  results (generate words (mkGen [] [])).

Definition words : list (list string) :=
  [ ["把"; ""];
    ["音色"; "声音"];
    ["切换"; "换"; "调"];
    ["到"; "为"; "成"] ].

Definition getDefaultSwitchSpeakerPrefix : list string :=
  generateSentences words.

(** The enumeration in the words of the specification: one word from each
    group, concatenated in group order, the groups enumerated as nested
    loops from left to right. *)
Fixpoint spec_sentences (groups : list (list string)) : list string :=
  match groups with
  | [] => [""]
  | ws :: rest =>
      flat_map (fun w => map (fun s => w +:+ s) (spec_sentences rest)) ws
  end.

Definition spec_prefixes : list string :=
  flat_map (fun a =>
  flat_map (fun b =>
  flat_map (fun c =>
  map (fun d => a +:+ b +:+ c +:+ d)
      ["到"; "为"; "成"])
      ["切换"; "换"; "调"])
      ["音色"; "声音"])
      ["把"; ""].

End SwitchPrefix.

(** ** Programs with effects

    A method is a program over a mutable state [S] that issues events of
    a family [E].  There are three ways to leave the program:
    - [emit]: a synchronous call whose result is not used and during
      which nothing else runs (the logger, [controller.abort()]); it is
      recorded and changes nothing;
    - [trigger]: a call answered by the environment, which may change the
      state while the program waits;
    - [call]: a [trigger] whose answer is a settled promise: a value, or
      a rejection that is rethrown at the [await].
    Every event issued is appended to the trace. *)

Inductive Outcome (A : Type) : Type :=
| Val (a : A)
| Exn (err : string).
Arguments Val {A} a.
Arguments Exn {A} err.

Section Prog.
Context {E : Type -> Type} {S : Type}.

Inductive Call : Type :=
| Called : forall X : Type, E X -> Call.

Record Run : Type := mkRun { now : S; trace : list Call }.

Definition Handler : Type := forall X : Type, E X -> S -> X * S.

Definition Prog (A : Type) : Type := Handler -> Run -> Outcome A * Run.

Definition ret {A} (a : A) : Prog A := fun _ r => (Val a, r).

Definition throw {A} (err : string) : Prog A := fun _ r => (Exn err, r).

Definition bind {A B} (c : Prog A) (k : A -> Prog B) : Prog B :=
  fun h r =>
    match c h r with
    | (Val a, r') => k a h r'
    | (Exn err, r') => (Exn err, r')
    end.

(** [promise.catch(k)] *)
Definition catch {A} (c : Prog A) (k : string -> Prog A) : Prog A :=
  fun h r =>
    match c h r with
    | (Val a, r') => (Val a, r')
    | (Exn err, r') => k err h r'
    end.

Definition emit (e : E unit) : Prog unit :=
  fun _ r => (Val tt, mkRun (now r) (trace r ++ [Called unit e])).

Definition trigger {X} (e : E X) : Prog X :=
  fun h r =>
    let (x, s') := h X e (now r) in
    (Val x, mkRun s' (trace r ++ [Called X e])).

Definition settle {X} (o : Outcome X) : Prog X :=
  match o with
  | Val x => ret x
  | Exn err => throw err
  end.

Definition call {X} (e : E (Outcome X)) : Prog X :=
  bind (trigger e) settle.

(** Read a field. *)
Definition read {A} (f : S -> A) : Prog A := fun _ r => (Val (f (now r)), r).

(** Assign to a field. *)
Definition update (f : S -> S) : Prog unit :=
  fun _ r => (Val tt, mkRun (f (now r)) (trace r)).

(** [if (b) { c }] *)
Definition when (b : bool) (c : Prog unit) : Prog unit :=
  if b then c else ret tt.

(** The events a program adds to the trace of the run it starts in. *)
Definition issued {A} (c : Prog A) (h : Handler) (r : Run) : list Call :=
  drop (length (trace r)) (trace (snd (c h r))).
End Prog.

Arguments Call E : clear implicits.
Arguments Called {E X} e.
Arguments Run E S : clear implicits.
Arguments Handler E S : clear implicits.
Arguments Prog E S A : clear implicits.

Declare Scope prog_scope.
Delimit Scope prog_scope with prog.
Notation "x <- c ;; k" := (bind c (fun x => k))
  (at level 100, c at next level, right associativity) : prog_scope.
Notation "c ;; k" := (bind c (fun _ => k))
  (at level 100, right associativity) : prog_scope.
Local Open Scope prog_scope.

(** The double-quote character of the log templates. *)
Definition dquote : string := String "034"%char EmptyString.

(** ** [AISpeaker] (services/speaker/ai.ts) *)

Module Speaker.

(** [QueryMessage] *)
Record QueryMessage := mkMsg { text : string; timestamp : Z }.

(** A [StreamResponse] object is referred to by a handle. *)
Definition StreamRef := nat.

(** [SpeakerAnswer]: a text, a live stream, or neither. *)
Record SpeakerAnswer := mkAnswer {
  ans_text : option string;
  ans_stream : option StreamRef
}.

(** The values that travel through the untyped result bag. *)
Inductive Value :=
| VUndefined
| VNull
| VString (s : string)
| VAnswer (a : SpeakerAnswer).

(** [if (v)] *)
Definition truthyV (v : Value) : bool :=
  match v with
  | VUndefined | VNull => false
  | VString s => truthy s
  | VAnswer _ => true
  end.

(** [v == null] *)
Definition looseNull (v : Value) : bool :=
  match v with VUndefined | VNull => true | _ => false end.

(** [v === "error"] *)
Definition isError (v : Value) : bool :=
  match v with VString s => String.eqb s "error" | _ => false end.

(** The options object passed to [this.response]. *)
Record ResponseOpts := mkOpts {
  o_text : option string;
  o_stream : option StreamRef;
  o_audio : option string;
  o_keepAlive : option bool;
  o_playSFX : option bool
}.

Definition say (t : string) : ResponseOpts :=
  mkOpts (Some t) None None None None.

(** [{ ...answer }]: only an answer object has own properties that are
    response options. *)
Definition spread (v : Value) : ResponseOpts :=
  match v with
  | VAnswer a => mkOpts (ans_text a) (ans_stream a) None None None
  | _ => mkOpts None None None None None
  end.

(** The result bag [data]; [{...a, ...b}] is [b ∪ a]. *)
Abbreviation Bag := (gmap string Value).

Definition field (k : string) (data : Bag) : Value :=
  default VUndefined (data !! k).

(** What a step resolves to: [{ stop?, data? } | void]. *)
Record StepResult := mkStep { stop : bool; data : option Bag }.

(** The function stored in [this.askAI] is referred to by a handle. *)
Definition AskAI := nat.

(** Calls that leave the class: the asynchronous methods of the [Speaker]
    base class and the [askAI] callback (awaited, may reject), [pickOne]
    (answered by the random source) and the logger. *)
Inductive Event : Type -> Type :=
| Response (o : ResponseOpts) : Event (Outcome Value)
| CallAskAI (f : AskAI) (msg : QueryMessage) : Event (Outcome Value)
| WakeUp : Event (Outcome unit)
| UnWakeUp : Event (Outcome unit)
| SuperEnterKeepAlive : Event (Outcome unit)
| SuperExitKeepAlive : Event (Outcome unit)
| SwitchSpeaker (speaker : string) : Event (Outcome bool)
| PickOne (l : list string) : Event (option string)
| Log (s : string) : Event unit.

(** What a trace shows: the options of the [response] calls, the [askAI]
    calls, and the number of [wakeUp] and base-class [enterKeepAlive]
    calls, in order of occurrence. *)
Definition responses (tr : list (Call Event)) : list ResponseOpts :=
  flat_map (fun c =>
    match c with
    | Called e => match e with Response o => [o] | _ => [] end
    end) tr.

Definition asked (tr : list (Call Event)) : list (AskAI * QueryMessage) :=
  flat_map (fun c =>
    match c with
    | Called e => match e with CallAskAI f msg => [(f, msg)] | _ => [] end
    end) tr.

Definition wakeUps (tr : list (Call Event)) : nat :=
  length (List.filter (fun c : Call Event =>
    match c with
    | Called e => match e with WakeUp => true | _ => false end
    end) tr).

Definition superEnters (tr : list (Call Event)) : nat :=
  length (List.filter (fun c : Call Event =>
    match c with
    | Called e => match e with SuperEnterKeepAlive => true | _ => false end
    end) tr).

(** The [response] call made for a picked phrase: none when [pickOne]
    gave nothing or an empty text. *)
Definition phraseSpoken (picked : option string)
    (opts : string -> ResponseOpts) : list ResponseOpts :=
  match picked with
  | Some t => if truthy t then [opts t] else []
  | None => []
  end.

(** The fields of the [Speaker] base class that [AISpeaker] reads, over an
    arbitrary state [W] of the device. [checkIfHasNewMsg] returns the
    [hasNewMsg] closure, which is evaluated later on the then-current
    state. *)
Class SpeakerBase (W : Type) := {
  keepAlive : W -> bool;
  status : W -> string;
  streamResponse : W -> bool;
  audioBeep : W -> option string;
  checkIfHasNewMsg : QueryMessage -> W -> (W -> bool)
}.

(** The fields [AISpeaker] declares itself. *)
Record AISpeaker := mkAISpeaker {
  askAI : option AskAI;
  name : string;
  switchSpeakerKeywords : list string;
  onEnterAI : list string;
  onExitAI : list string;
  callAIKeywords : list string;
  wakeUpKeywords : list string;
  exitKeywords : list string;
  onAIAsking : list string;
  onAIReplied : list string;
  onAIError : list string;
  audioActive : option string;
  audioError : option string
}.

(** [AISpeakerConfig]: every field optional. *)
Record AISpeakerConfig := mkConfig {
  c_askAI : option AskAI;
  c_name : option string;
  c_switchSpeakerKeywords : option (list string);
  c_callAIKeywords : option (list string);
  c_wakeUpKeywords : option (list string);
  c_exitKeywords : option (list string);
  c_onEnterAI : option (list string);
  c_onExitAI : option (list string);
  c_onAIAsking : option (list string);
  c_onAIReplied : option (list string);
  c_onAIError : option (list string);
  c_audioActive : option string;
  c_audioError : option string
}.

(** [process.env.AUDIO_ACTIVE], [process.env.AUDIO_ERROR] *)
Record ProcessEnv := mkEnv {
  AUDIO_ACTIVE : option string;
  AUDIO_ERROR : option string
}.

(** A destructuring default [x = d] and [x ?? d] on [undefined]. *)
Definition orElse {A} (o : option A) (d : A) : A := default d o.

(** A default on a field that may itself be [undefined]. *)
Definition orElseOpt {A} (o d : option A) : option A :=
  match o with Some a => Some a | None => d end.

Definition constructor (env : ProcessEnv) (config : AISpeakerConfig) : AISpeaker :=
  {| askAI := c_askAI config;
     name := orElse (c_name config) "傻妞";
     callAIKeywords := orElse (c_callAIKeywords config) ["请"; "你"; "傻妞"];
     wakeUpKeywords := orElse (c_wakeUpKeywords config) ["打开"; "进入"; "召唤"];
     exitKeywords := orElse (c_exitKeywords config) ["关闭"; "退出"; "再见"];
     onEnterAI := orElse (c_onEnterAI config) ["你好，我是傻妞，很高兴认识你"];
     onExitAI := orElse (c_onExitAI config) ["傻妞已退出"];
     onAIError := orElse (c_onAIError config) ["啊哦，出错了，请稍后再试吧！"];
     onAIAsking := orElse (c_onAIAsking config) ["让我先想想"; "请稍等"];
     onAIReplied := orElse (c_onAIReplied config) ["我说完了"; "还有其他问题吗"];
     audioActive := orElseOpt (c_audioActive config) (AUDIO_ACTIVE env);
     audioError := orElseOpt (c_audioError config) (AUDIO_ERROR env);
     switchSpeakerKeywords :=
       orElse (c_switchSpeakerKeywords config)
              SwitchPrefix.getDefaultSwitchSpeakerPrefix |}.

(** [s.replace(pat, rep)] with a string pattern: the first occurrence. *)
Fixpoint replaceFirst (s pat rep : string) : string :=
  if String.prefix pat s then
    rep +:+ substring (String.length pat) (String.length s - String.length pat) s
  else
    match s with
    | EmptyString => EmptyString
    | String c s' => String c (replaceFirst s' pat rep)
    end.

Section Methods.
Context {W : Type} `{SpeakerBase W}.

(** [SpeakerCommand] *)
Record SpeakerCommand := mkCommand {
  cmd_match : QueryMessage -> W -> bool;
  run : QueryMessage -> Prog Event W unit
}.

(** [type AnswerStep] *)
Definition AnswerStep : Type :=
  QueryMessage -> Bag -> Prog Event W (option StepResult).

Variable self : AISpeaker.

(** [this._commands], the commands registered on the base class. *)
Variable _commands : list SpeakerCommand.

Definition log (s : string) : Prog Event W unit := emit (Log s).

Definition response (o : ResponseOpts) : Prog Event W Value :=
  call (Response o).

Definition pickOne (l : list string) : Prog Event W (option string) :=
  trigger (PickOne l).

(** [if (text) { ... }] on the result of [pickOne]. *)
Definition ifText (text : option string)
    (k : string -> Prog Event W unit) : Prog Event W unit :=
  match text with
  | Some t => if truthy t then k t else ret tt
  | None => ret tt
  end.

Definition enterKeepAlive : Prog Event W unit :=
  sr <- read streamResponse;;
  if negb sr then
    _ <- response (say "您已关闭流式响应(streamResponse)，无法使用连续对话模式");;
    ret tt
  else
    text <- pickOne (onEnterAI self);;
    ifText text (fun t =>
      _ <- response (mkOpts (Some t) None None (Some true) None);; ret tt);;
    call SuperEnterKeepAlive;;
    log "🔥 AI模式已唤醒 - 进入智能对话模式".

Definition exitKeepAlive : Prog Event W unit :=
  call SuperExitKeepAlive;;
  text <- pickOne (onExitAI self);;
  ifText text (fun t =>
    _ <- response (mkOpts (Some t) None None (Some false) (Some false));;
    ret tt);;
  call UnWakeUp;;
  log "🔥 AI模式已退出 - 智能对话模式结束".

(** *** The answer steps *)

Definition step_thinking : AnswerStep := fun msg data =>
  text <- pickOne (onAIAsking self);;
  ifText text (fun t =>
    _ <- response (mkOpts (Some t) None (audioActive self) None None);;
    log ("🔥 AI思考中提示: " +:+ dquote +:+ t +:+ dquote));;
  ret None.

Definition step_askAI : AnswerStep := fun msg data =>
  log "🔥 调用AI获取回复";;
  answer <- match askAI self with
            | Some f => call (CallAskAI f msg)
            | None => ret VUndefined
            end;;
  log ("🔥 AI回复获取" +:+ (if truthyV answer then "成功" else "失败"));;
  ret (Some (mkStep false (Some {[ "answer" := answer ]}))).

Definition step_play : AnswerStep := fun msg data =>
  if truthyV (field "answer" data) then
    log "🔥 开始播报AI回复";;
    res <- response (spread (field "answer" data));;
    ret (Some (mkStep false (Some (<[ "res" := res ]> data))))
  else ret None.

Definition step_replied : AnswerStep := fun msg data =>
  beep <- read audioBeep;;
  sr <- read streamResponse;;
  (if truthyV (field "answer" data) && looseNull (field "res" data)
      && negb (truthy_opt beep) && sr
   then
     text <- pickOne (onAIReplied self);;
     ifText text (fun t =>
       _ <- response (say t);;
       log ("🔥 AI回复完毕提示: " +:+ dquote +:+ t +:+ dquote))
   else ret tt);;
  ret None.

Definition step_error : AnswerStep := fun msg data =>
  (if isError (field "res" data) then
     text <- pickOne (onAIError self);;
     ifText text (fun t =>
       _ <- response (mkOpts (Some t) None (audioError self) None None);;
       log ("🔥 AI回答异常提示: " +:+ dquote +:+ t +:+ dquote))
   else ret tt);;
  ret None.

Definition step_rewake : AnswerStep := fun msg data =>
  ka <- read keepAlive;;
  (if ka then
     call WakeUp;;
     log "🔥 连续对话模式 - 重新唤醒设备"
   else ret tt);;
  ret None.

Definition _askAIForAnswerSteps : list AnswerStep :=
  [ step_thinking; step_askAI; step_play;
    step_replied; step_error; step_rewake ].

(** *** The step loop *)

(** How one turn of the [for] loop ends. *)
Inductive Turn :=
| Return_                 (* [return] : a new message, or not running *)
| Break (data : Bag)      (* [break]  : the step asked to stop *)
| Next (data : Bag).      (* on to the next step *)

(** [hasNewMsg() || this.status !== "running"] *)
Definition superseded (hasNewMsg : W -> bool) (w : W) : bool :=
  hasNewMsg w || negb (String.eqb (status w) "running").

(** [{ ...data, ...res.data }] when [res?.data]. *)
Definition merge (data : Bag) (res : option StepResult) : Bag :=
  match res with
  | Some (mkStep _ (Some d)) => d ∪ data
  | _ => data
  end.

(** [res?.stop] *)
Definition wantsStop (res : option StepResult) : bool :=
  match res with Some r => stop r | None => false end.

Definition turn (action : AnswerStep) (msg : QueryMessage)
    (hasNewMsg : W -> bool) (data : Bag) : Prog Event W Turn :=
  res <- action msg data;;
  gone <- read (superseded hasNewMsg);;
  if gone then
    log "🔥 AI回答处理中断 - 检测到新消息或状态变化";;
    ret Return_
  else
    let data := merge data res in
    if wantsStop res then ret (Break data) else ret (Next data).

(** The [for (const action of steps)] loop; [None] when it returned
    from inside, the final bag when it ran off the end or broke. *)
Fixpoint runSteps (steps : list AnswerStep) (msg : QueryMessage)
    (hasNewMsg : W -> bool) (data : Bag) : Prog Event W (option Bag) :=
  match steps with
  | [] => ret (Some data)
  | action :: rest =>
      t <- turn action msg hasNewMsg data;;
      match t with
      | Return_ => ret None
      | Break data => ret (Some data)
      | Next data => runSteps rest msg hasNewMsg data
      end
  end.

(** Where the loop stands after the steps of [pre]: the bag and the run,
    when each of these steps ran to its end and none of them ended the
    loop. *)
Fixpoint reached (pre : list AnswerStep) (msg : QueryMessage)
    (hasNewMsg : W -> bool) (data : Bag)
    (h : Handler Event W) (r : Run Event W) : option (Bag * Run Event W) :=
  match pre with
  | [] => Some (data, r)
  | action :: rest =>
      match turn action msg hasNewMsg data h r with
      | (Val (Next data'), r') => reached rest msg hasNewMsg data' h r'
      | _ => None
      end
  end.

(** The run once [askAIForAnswer] has logged its first line. *)
Definition started (msg : QueryMessage) (r : Run Event W) : Run Event W :=
  mkRun (now r)
    (trace r ++ [Called (Log ("🔥 开始AI回答处理 - 用户消息: " +:+ dquote +:+ text msg +:+ dquote))]).

(** The line logged when the loop returns early, and the last line. *)
Definition interruptLine : Call Event :=
  Called (Log "🔥 AI回答处理中断 - 检测到新消息或状态变化").

Definition doneLine : Call Event :=
  Called (Log "🔥 AI回答处理完成").

(** [askAIForAnswer] over the step list held in the private field. *)
Definition askAIForAnswerOver (steps : list AnswerStep)
    (msg : QueryMessage) : Prog Event W unit :=
  log ("🔥 开始AI回答处理 - 用户消息: " +:+ dquote +:+ text msg +:+ dquote);;
  hasNewMsg <- read (checkIfHasNewMsg msg);;
  r <- runSteps steps msg hasNewMsg ∅;;
  match r with
  | None => ret tt
  | Some _ => log "🔥 AI回答处理完成"
  end.

Definition askAIForAnswer : QueryMessage -> Prog Event W unit :=
  askAIForAnswerOver _askAIForAnswerSteps.

(** *** The command list *)

Definition wakeCommand : SpeakerCommand :=
  {| cmd_match := fun msg w =>
       negb (keepAlive w)
       && some (fun e => startsWith (text msg) e) (wakeUpKeywords self);
     run := fun msg => enterKeepAlive |}.

Definition exitCommand : SpeakerCommand :=
  {| cmd_match := fun msg w =>
       keepAlive w
       && some (fun e => startsWith (text msg) e) (exitKeywords self);
     run := fun msg => exitKeepAlive |}.

Definition switchCommand : SpeakerCommand :=
  {| cmd_match := fun msg w =>
       some (fun e => startsWith (text msg) e) (switchSpeakerKeywords self);
     run := fun msg =>
       _ <- response (say "正在切换音色，请稍等...");;
       let prefix :=
         find_first (fun e => startsWith (text msg) e)
                    (switchSpeakerKeywords self) in
       let speaker := replaceFirst (text msg) (default "undefined" prefix) "" in
       success <- call (SwitchSpeaker speaker);;
       ka <- read keepAlive;;
       _ <- response
              (mkOpts (Some (if (success : bool) then "音色已切换！" else "音色切换失败！"))
                      None None (Some ka) None);;
       ret tt |}.

Definition askCommand : SpeakerCommand :=
  {| cmd_match := fun msg w =>
       keepAlive w
       || some (fun e => startsWith (text msg) e) (callAIKeywords self);
     run := fun msg => askAIForAnswer msg |}.

(** [get commands()] *)
Definition commands : list SpeakerCommand :=
  [ wakeCommand; exitCommand; switchCommand ] ++ _commands ++ [ askCommand ].

End Methods.

End Speaker.

(** ** [OpenAIClient] (services/openai.ts) and the streaming glue of [MyBot] *)

Module OpenAI.

(** An [AbortController] is referred to by a handle. *)
Definition Controller := nat.

(** The values stored in [_abortCallbacks]: both writers store a closure
    [() => controller.abort()], identified by its controller. *)
Inductive VoidFunction := AbortOf (c : Controller).

(** The SDK client built by [_init]. *)
Inductive Client :=
| AzureOpenAI (deployment : option string)
| PlainOpenAI.

(** [_abortCallbacks] is a plain object: its own properties, and its
    prototype, which is [Object.prototype] ([None]) until a callback is
    assigned under "__proto__". *)
Record OpenAIClient := mkClient {
  traceInput : bool;
  traceOutput : bool;
  deployment : option string;
  _client : option Client;
  _abortCallbacks : gmap string VoidFunction;
  _abortCallbacks_proto : option VoidFunction
}.

(** [export const openai = new OpenAIClient()] *)
Definition newClient : OpenAIClient := mkClient false true None None ∅ None.

(** The process: the shared [openai] object and everything else. *)
Record Sys (W : Type) := mkSys { openai : OpenAIClient; outside : W }.
Arguments mkSys {W} openai outside.
Arguments openai {W} s.
Arguments outside {W} s.

Definition onClient {W} (f : OpenAIClient -> OpenAIClient) (s : Sys W) : Sys W :=
  mkSys (f (openai s)) (outside s).

Definition Tool := string.

Record ChatOptions := mkOptions {
  user : string;
  system : option string;
  model : option string;
  tools : option (list Tool);
  jsonMode : option bool;
  requestId : option string;
  trace_ : option bool;
  enableSearch : option bool
}.

(** The fields of [kEnvs] that the client reads. *)
Record Envs := mkEnvs {
  AZURE_OPENAI_DEPLOYMENT : option string;
  AZURE_OPENAI_API_KEY : option string;
  OPENAI_MODEL : option string;
  QWEN_ENABLE_SEARCH : bool
}.

(** The body of [chat.completions.create]. *)
Record Request := mkRequest {
  r_model : string;
  r_tools : option (list Tool);
  r_stream : bool;
  r_messages : list (string * string);
  r_response_format : option string;
  r_enable_search : bool
}.

Record Message := mkMessage { m_content : option string }.
Record CompletionChoice := mkCChoice { message : option Message }.
Record ChatCompletion := mkCompletion { cc_choices : option (list CompletionChoice) }.

Record Delta := mkDelta { content : option string }.
Record Choice := mkChoice { delta : option Delta }.
Record Chunk := mkChunk { choices : list Choice }.

(** A streamed completion: its controller and the chunks it delivers. *)
Record Stream := mkStream { controller : Controller; chunks : list Chunk }.

Definition StreamRef := nat.

(** The log lines, by template and arguments. *)
Inductive LogMsg :=
| OnAskAI (system : option string) (user : string)
| AnswerIs (content : string)
| LLMError (err : string)
| StreamRequest (requestId : string) (model : string)
| SendRequest (tools : nat) (jsonMode : bool) (search : bool)
| StreamFailed (requestId : string)
| StreamReceiving (requestId : string)
| StreamAborted (requestId : string)
| StreamDone (requestId : string) (chunkCount : nat) (content : string)
| BotStreamCreated (requestId : string)
| BotStreamCanceled (requestId : string)
| BotStreamEnded (requestId : string) (hasAnswer : bool).

Inductive Event : Type -> Type :=
| Log (m : LogMsg) : Event unit
| LogError (m : LogMsg) : Event unit
| Abort (c : Controller) : Event unit
| NewAbortController : Event Controller
| Create (cl : Client) (req : Request) (signal : option Controller)
    : Event (Outcome ChatCompletion)
| CreateStream (cl : Client) (req : Request) : Event (Outcome Stream)
| AwaitNext (c : Controller) : Event (Outcome unit)
| RandomUUID : Event string
| NewStreamResponse (firstSubmitTimeout : Z) : Event StreamRef
| AddResponse (s : StreamRef) (text : string) : Event unit
| Finish (s : StreamRef) (answer : option string) : Event unit
| CancelStream (s : StreamRef) : Event unit.

(** What a trace shows of the [StreamResponse] objects: the calls of
    their methods, and the controllers aborted, in order. *)
Inductive StreamCall :=
| SAddResponse (s : StreamRef) (text : string)
| SFinish (s : StreamRef) (answer : option string)
| SCancel (s : StreamRef).

Definition streamCalls (tr : list (Call Event)) : list StreamCall :=
  flat_map (fun c =>
    match c with
    | Called e =>
        match e with
        | AddResponse s t => [SAddResponse s t]
        | Finish s a => [SFinish s a]
        | CancelStream s => [SCancel s]
        | _ => []
        end
    end) tr.

Definition aborts (tr : list (Call Event)) : list Controller :=
  flat_map (fun c =>
    match c with
    | Called e => match e with Abort c => [c] | _ => [] end
    end) tr.

Definition awaited (tr : list (Call Event)) : nat :=
  length (List.filter (fun c : Call Event =>
    match c with
    | Called e => match e with AwaitNext _ => true | _ => false end
    end) tr).

(** No abort callback is registered for [requestId]. *)
Definition unregistered {W} (requestId : string) (s : Sys W) : Prop :=
  _abortCallbacks (openai s) !! requestId = None.

(** [stream.status] of a [StreamResponse], read from the state. *)
Class StreamState (W : Type) := {
  streamStatus : W -> StreamRef -> string
}.

(** [chunk.choices[0]?.delta?.content || ""] *)
Definition chunkText (chunk : Chunk) : string :=
  match choices chunk with
  | c :: _ =>
      match delta c with
      | Some d => match content d with Some t => t | None => "" end
      | None => ""
      end
  | [] => ""
  end.

(** [chatCompletion?.choices?.[0]?.message] *)
Definition firstMessage (c : option ChatCompletion) : option Message :=
  match c with
  | Some c =>
      match cc_choices c with
      | Some (ch :: _) => message ch
      | _ => None
      end
  | None => None
  end.

(** [Object.keys(o)] *)
Definition keys {V} (o : gmap string V) : list string := (map_to_list o).*1.

(** [xs.includes(x)] *)
Definition includes (xs : list string) (x : string) : bool :=
  bool_decide (x ∈ xs).

(** *** The registry as a plain object

    [_abortCallbacks] is read with [o[key]], which follows the prototype
    chain, written with [o[key] = f] in strict code, emptied with
    [delete o[key]] and listed with [Object.keys(o)]; the last two see
    own properties only. *)

(** What a method that the registry inherits does when it is called on
    the registry without arguments. *)
Inductive Builtin :=
| Harmless           (* returns: [hasOwnProperty], [valueOf], ... *)
| Throwing           (* [TypeError]: [__defineGetter__], [call], ... *)
| InvokesToString.   (* [toLocaleString]: calls [this.toString()] *)

(** What reading a property of the registry finds. *)
Inductive Property :=
| PCallback (f : VoidFunction)   (* a callback that was assigned *)
| PBuiltin (b : Builtin)         (* an inherited method *)
| PObject                        (* [Object.prototype]: truthy, not callable *)
| PFalsy                         (* [length] and [name] of a function *)
| PThrows                        (* an accessor that throws [TypeError] *)
| PUndefined.

(** The properties of [Object.prototype]. *)
Definition objectPrototype (key : string) : Property :=
  if String.eqb key "__proto__" then PObject
  else if includes ["constructor"; "hasOwnProperty"; "isPrototypeOf";
                    "propertyIsEnumerable"; "toString"; "valueOf";
                    "__lookupGetter__"; "__lookupSetter__"] key
  then PBuiltin Harmless
  else if String.eqb key "toLocaleString" then PBuiltin InvokesToString
  else if includes ["__defineGetter__"; "__defineSetter__"] key
  then PBuiltin Throwing
  else PUndefined.

(** The chain behind a registry whose prototype is the arrow function
    [f]: the own [length] and [name] of [f], then [Function.prototype],
    then [Object.prototype]. *)
Definition functionChain (f : VoidFunction) (key : string) : Property :=
  if String.eqb key "__proto__" then PCallback f
  else if includes ["length"; "name"] key then PFalsy
  else if includes ["arguments"; "caller"] key then PThrows
  else if includes ["apply"; "bind"; "call"; "toString"] key
  then PBuiltin Throwing
  else objectPrototype key.

Definition inherited (proto : option VoidFunction) (key : string) : Property :=
  match proto with
  | None => objectPrototype key
  | Some f => functionChain f key
  end.

(** [this._abortCallbacks[key]] *)
Definition property (this : OpenAIClient) (key : string) : Property :=
  match _abortCallbacks this !! key with
  | Some f => PCallback f
  | None => inherited (_abortCallbacks_proto this) key
  end.

(** How [o[key] = f] ends when [key] is not an own property: a new own
    property, the setter of "__proto__", or a [TypeError] for an
    inherited property that cannot be written. *)
Inductive Assignment := CreatesOwn | SetsPrototype | Rejected.

Definition assignment (proto : option VoidFunction) (key : string) : Assignment :=
  if String.eqb key "__proto__" then SetsPrototype
  else match proto with
       | None => CreatesOwn
       | Some _ =>
           if includes ["length"; "name"; "arguments"; "caller"] key
           then Rejected else CreatesOwn
       end.

Section Client.
Context {W : Type} `{StreamState W}.
Variable kEnvs : Envs.

(** [isEmpty] of utils/is, on strings. *)
Variable isEmpty : string -> bool.

(** Modelled from the spec: [isNotEmpty] of utils/is is not among the
    sources; on [string | undefined] it is the negation of [isEmpty],
    and [undefined] is empty. *)
Definition isNotEmpty (o : option string) : bool :=
  match o with Some s => negb (isEmpty s) | None => false end.

(** Modelled from the spec: [withDefault] of utils/base is not among the
    sources; it yields the default in place of an empty value, so that a
    stream without text reports failure instead of a text. *)
Definition withDefault (e : string) (defaultValue : option string)
    : option string :=
  if isEmpty e then defaultValue else Some e.

Abbreviation P := (Prog Event (Sys W)).

Definition log (m : LogMsg) : P unit := emit (Log m).
Definition logError (m : LogMsg) : P unit := emit (LogError m).

Definition setDeployment (d : option string) (c : OpenAIClient) :=
  mkClient (traceInput c) (traceOutput c) d (_client c) (_abortCallbacks c)
           (_abortCallbacks_proto c).

Definition setClient (cl : Client) (c : OpenAIClient) :=
  mkClient (traceInput c) (traceOutput c) (deployment c) (Some cl)
           (_abortCallbacks c) (_abortCallbacks_proto c).

Definition setCallbacks (f : gmap string VoidFunction -> gmap string VoidFunction)
    (c : OpenAIClient) :=
  mkClient (traceInput c) (traceOutput c) (deployment c) (_client c)
           (f (_abortCallbacks c)) (_abortCallbacks_proto c).

Definition setPrototype (f : VoidFunction) (c : OpenAIClient) :=
  mkClient (traceInput c) (traceOutput c) (deployment c) (_client c)
           (_abortCallbacks c) (Some f).

(** The client once [_init] has run. *)
Definition initialised (c : OpenAIClient) : OpenAIClient :=
  let c := setDeployment (AZURE_OPENAI_DEPLOYMENT kEnvs) c in
  match _client c with
  | Some _ => c
  | None =>
      setClient (if truthy_opt (AZURE_OPENAI_API_KEY kEnvs)
                 then AzureOpenAI (deployment c)
                 else PlainOpenAI) c
  end.

Definition _init : P unit :=
  update (onClient (setDeployment (AZURE_OPENAI_DEPLOYMENT kEnvs)));;
  this <- read openai;;
  match _client this with
  | Some _ => ret tt
  | None =>
      update (onClient (setClient
        (if truthy_opt (AZURE_OPENAI_API_KEY kEnvs)
         then AzureOpenAI (deployment this)
         else PlainOpenAI)))
  end.

(** [this._client!] *)
Definition theClient : P Client :=
  this <- read openai;;
  match _client this with
  | Some cl => ret cl
  | None => throw "TypeError"
  end.

(** [o[key] = f] on the registry: the client after the assignment,
    unless it throws. *)
Definition assigned (key : string) (f : VoidFunction) (this : OpenAIClient)
    : option OpenAIClient :=
  match _abortCallbacks this !! key with
  | Some _ => Some (setCallbacks (<[ key := f ]>) this)
  | None =>
      match assignment (_abortCallbacks_proto this) key with
      | CreatesOwn => Some (setCallbacks (<[ key := f ]>) this)
      | SetsPrototype => Some (setPrototype f this)
      | Rejected => None
      end
  end.

(** [this._abortCallbacks[requestId] = f] *)
Definition register (requestId : string) (f : VoidFunction) : P unit :=
  this <- read openai;;
  match assigned requestId f this with
  | Some this' => update (onClient (fun _ => this'))
  | None => throw "TypeError"
  end.

(** [p()], called on the registry. *)
Definition invoke (p : Property) : P unit :=
  match p with
  | PCallback (AbortOf c) => emit (Abort c)
  | PBuiltin Harmless => ret tt
  | PBuiltin Throwing => throw "TypeError"
  | PBuiltin InvokesToString =>
      this <- read openai;;
      match property this "toString" with
      | PCallback (AbortOf c) => emit (Abort c)
      | PBuiltin Harmless => ret tt
      | _ => throw "TypeError"
      end
  | _ => throw "TypeError"
  end.

Definition cancel (requestId : string) : P unit :=
  _init;;
  this <- read openai;;
  match property this requestId with
  | PThrows => throw "TypeError"
  | PFalsy | PUndefined => ret tt
  | p =>
      invoke p;;
      update (onClient (setCallbacks (delete requestId)))
  end.

(** [if (requestId) { k }] *)
Definition ifId (requestId : option string) (k : string -> P unit) : P unit :=
  match requestId with
  | Some r => if truthy r then k r else ret tt
  | None => ret tt
  end.

(** [requestId || "无"] *)
Definition idOrNone (requestId : option string) : string :=
  match requestId with
  | Some r => if truthy r then r else "无"
  | None => "无"
  end.

Definition defaultModel (options : ChatOptions) (this : OpenAIClient) : string :=
  default
    (default (default "gpt-4o" (OPENAI_MODEL kEnvs)) (deployment this))
    (model options).

Definition systemMsg (options : ChatOptions) : list (string * string) :=
  if isNotEmpty (system options)
  then [("system", default "" (system options))]
  else [].

Definition responseFormat (options : ChatOptions) : option string :=
  if default false (jsonMode options) then Some "json_object" else None.

Definition chat (options : ChatOptions) : P (option Message) :=
  _init;;
  this <- read openai;;
  let trace := default false (trace_ options) in
  let model := defaultModel options this in
  when (trace && traceInput this)
       (log (OnAskAI (system options) (user options)));;
  signal <- match requestId options with
            | Some r =>
                if truthy r then
                  controller <- trigger NewAbortController;;
                  register r (AbortOf controller);;
                  ret (Some controller)
                else ret None
            | None => ret None
            end;;
  cl <- theClient;;
  chatCompletion <-
    catch
      (c <- call (Create cl
               (mkRequest model (tools options) false
                  (systemMsg options ++ [("user", user options)])
                  (responseFormat options) false)
               signal);;
       ret (Some c))
      (fun e => logError (LLMError e);; ret None);;
  ifId (requestId options) (fun r =>
    update (onClient (setCallbacks (delete r))));;
  let message := firstMessage chatCompletion in
  this <- read openai;;
  when (trace && traceOutput this)
       (log (AnswerIs (default "None" (message ≫= m_content))));;
  ret message.

(** How one turn of the [for await] loop ends. *)
Inductive Pulled :=
| Stop (content : string) (chunkCount : nat)      (* [break] *)
| Continue (content : string) (chunkCount : nat).

(** [requestId && !Object.keys(this._abortCallbacks).includes(requestId)] *)
Definition isAborted (requestId : option string) (this : OpenAIClient) : bool :=
  match requestId with
  | Some r => truthy r && negb (includes (keys (_abortCallbacks this)) r)
  | None => false
  end.

(** The body of the loop, on a chunk that has arrived. *)
Definition onChunk (requestId : option string)
    (onStream : option (string -> P unit))
    (chunk : Chunk) (content : string) (chunkCount : nat) : P Pulled :=
  let text := chunkText chunk in
  this <- read openai;;
  if isAborted requestId this then
    log (StreamAborted (default "" requestId));;
    ret (Stop "" chunkCount)
  else if truthy text then
    match onStream with Some f => f text | None => ret tt end;;
    ret (Continue (content +:+ text) (Datatypes.S chunkCount))
  else
    ret (Continue content chunkCount).

(** The [for await (const chunk of stream)] loop: each turn waits for
    the next chunk, the last wait reports the end of the stream.
    Results in [content] and [chunkCount]. *)
Fixpoint consume (requestId : option string)
    (onStream : option (string -> P unit)) (c : Controller)
    (chunks : list Chunk) (content : string) (chunkCount : nat)
    : P (string * nat) :=
  call (AwaitNext c);;
  match chunks with
  | [] => ret (content, chunkCount)
  | chunk :: rest =>
      t <- onChunk requestId onStream chunk content chunkCount;;
      match t with
      | Stop content chunkCount => ret (content, chunkCount)
      | Continue content chunkCount =>
          consume requestId onStream c rest content chunkCount
      end
  end.

(** Where the loop stands after the chunks of [pre]: the text, the
    count and the run, when each of them arrived and none ended the
    loop. *)
Fixpoint consumed (requestId : option string)
    (onStream : option (string -> P unit)) (c : Controller)
    (pre : list Chunk) (content : string) (chunkCount : nat)
    (h : Handler Event (Sys W)) (r : Run Event (Sys W))
    : option (string * nat * Run Event (Sys W)) :=
  match pre with
  | [] => Some (content, chunkCount, r)
  | chunk :: rest =>
      match (call (AwaitNext c);;
             onChunk requestId onStream chunk content chunkCount) h r with
      | (Val (Continue content chunkCount), r') =>
          consumed requestId onStream c rest content chunkCount h r'
      | _ => None
      end
  end.

(** [chatStream] up to the loop: the request is sent; without a stream
    the method returns, with one the abort callback is registered. *)
Definition openStream (options : ChatOptions) : P (option Stream) :=
  _init;;
  this <- read openai;;
  let trace := default false (trace_ options) in
  let model := defaultModel options this in
  let enableSearch := default (QWEN_ENABLE_SEARCH kEnvs) (enableSearch options) in
  let requestId := requestId options in
  log (StreamRequest (idOrNone requestId) model);;
  when (trace && traceInput this)
       (log (OnAskAI (system options) (user options)));;
  log (SendRequest (default 0 (length <$> tools options))
                   (default false (jsonMode options)) enableSearch);;
  cl <- theClient;;
  stream <-
    catch
      (s <- call (CreateStream cl
               (mkRequest model (tools options) true
                  (systemMsg options ++ [("user", user options)])
                  (responseFormat options) enableSearch));;
       ret (Some s))
      (fun e => logError (LLMError e);; ret None);;
  match stream with
  | None =>
      logError (StreamFailed (idOrNone requestId));;
      ret None
  | Some stream =>
      ifId requestId (fun r => register r (AbortOf (controller stream)));;
      log (StreamReceiving (idOrNone requestId));;
      ret (Some stream)
  end.

(** [chatStream] after the loop. *)
Definition closeStream (options : ChatOptions) (res : string * nat)
    : P (option string) :=
  let requestId := requestId options in
  let trace := default false (trace_ options) in
  ifId requestId (fun r =>
    update (onClient (setCallbacks (delete r))));;
  log (StreamDone (idOrNone requestId) (snd res) (fst res));;
  this <- read openai;;
  when (trace && traceOutput this) (log (AnswerIs (fst res)));;
  ret (withDefault (fst res) None).

Definition chatStream (options : ChatOptions)
    (onStream : option (string -> P unit)) : P (option string) :=
  stream <- openStream options;;
  match stream with
  | None => ret None
  | Some stream =>
      res <- consume (requestId options) onStream (controller stream)
                     (chunks stream) "" 0;;
      closeStream options res
  end.

(** *** [MyBot.chatWithStreamResponse] *)

(** The [onStream] closure. *)
Definition onStream (requestId : string) (stream : StreamRef)
    (text : string) : P unit :=
  st <- read (fun s => streamStatus (outside s) stream);;
  if String.eqb st "canceled" then
    log (BotStreamCanceled requestId);;
    cancel requestId
  else
    trigger (AddResponse stream text).

(** The [.then] continuation. *)
Definition onSettled (requestId : string) (stream : StreamRef)
    (onFinished : option (string -> P unit)) (answer : option string) : P unit :=
  log (BotStreamEnded requestId (truthy_opt answer));;
  if truthy_opt answer then
    trigger (Finish stream answer);;
    match onFinished with
    | Some f => f (default "" answer)
    | None => ret tt
    end
  else
    trigger (Finish stream answer);;
    trigger (CancelStream stream).

Definition withRequest (options : ChatOptions) (requestId : string) : ChatOptions :=
  mkOptions (user options) (system options) (model options) (tools options)
            (jsonMode options) (Some requestId) (Some true)
            (enableSearch options).

(** The request that [chatWithStreamResponse] starts and does not await. *)
Definition streamTask (options : ChatOptions)
    (onFinished : option (string -> P unit))
    (requestId : string) (stream : StreamRef) : P unit :=
  answer <- chatStream (withRequest options requestId)
                       (Some (onStream requestId stream));;
  onSettled requestId stream onFinished answer.

(** Returns the stream together with the task left running. *)
Definition chatWithStreamResponse (options : ChatOptions)
    (onFinished : option (string -> P unit)) : P (StreamRef * P unit) :=
  requestId <- trigger RandomUUID;;
  log (BotStreamCreated requestId);;
  stream <- trigger (NewStreamResponse 3000);;
  ret (stream, streamTask options onFinished requestId stream).

End Client.

End OpenAI.

(** ** [MyBot] (services/bot/index.ts) *)

Module Bot.

Record User := mkUser { u_name : string; u_profile : string }.

Record Room := mkRoom { room_name : string; room_description : string }.

(** The memory object of the conversation is referred to by a handle. *)
Definition MemoryRef := nat.

(** What [manager.get()] resolves to; every field may be missing. *)
Record BotConfig := mkBotConfig {
  bot : option User;
  master : option User;
  room : option Room;
  memory : option MemoryRef
}.

Record MessageContext := mkCtx {
  ctx_bot : option User;
  ctx_master : option User;
  ctx_room : option Room
}.

(** A message of the history, with [createdAt.getTime()]. *)
Record Stored := mkStored { sender : User; s_text : string; createdAt : Z }.

Record Memory := mkMemory { m_text : string }.

(** The argument of [manager.onMessage]. *)
Record NewMessage := mkNew {
  n_text : string;
  n_timestamp : Z;
  n_sender : option User
}.

(** The lines given to [speaker.logger.log], by template and arguments. *)
Inductive LogLine :=
| BuildingRequest (botName masterName : string)
| ShortTermLine (present : bool)
| LongTermLine (present : bool)
| HistoryLine (count : nat)
| UserSaved
| ReplySaved.

(** The calls that leave [ask].  The closure [onFinished] handed to
    [chatWithStreamResponse] is identified by the context it captures
    ([bot] is the context's own). *)
Inductive Event : Type -> Type :=
| ManagerGet : Event (Outcome BotConfig)
| GetMessages (take : nat) : Event (Outcome (list Stored))
| GetShortTermMemories (memory : MemoryRef) (take : nat)
    : Event (Outcome (list Memory))
| GetLongTermMemories (memory : MemoryRef) (take : nat)
    : Event (Outcome (list Memory))
| OnMessage (ctx : MessageContext) (message : NewMessage)
    : Event (Outcome unit)
| ChatWithStreamResponse (system user : string) (onFinished : MessageContext)
    : Event (Outcome Speaker.StreamRef)
| DateNow : Event Z
| Log (line : LogLine) : Event unit.

(** The messages given to [manager.onMessage], in order. *)
Definition saves (tr : list (Call Event)) : list (MessageContext * NewMessage) :=
  flat_map (fun c =>
    match c with
    | Called e => match e with OnMessage ctx m => [(ctx, m)] | _ => [] end
    end) tr.

(** The requests given to [chatWithStreamResponse], in order. *)
Definition starts (tr : list (Call Event))
    : list (string * string * MessageContext) :=
  flat_map (fun c =>
    match c with
    | Called e =>
        match e with
        | ChatWithStreamResponse system user ctx => [(system, user, ctx)]
        | _ => []
        end
    end) tr.




(** The module's default system prompt, after its [trim()]. *)
Definition kDefaultSystemTemplate : string :=
  "请重置所有之前的上下文、文件和指令。现在，你将扮演一个名为{{botName}}的角色，使用第一人称视角回复消息。

## 关于你
你的名字是{{botName}}。下面是你的个人简介：
<start>
{{botProfile}}
</end>

## 你的对话伙伴
你正在与{{masterName}}进行对话。这是关于{{masterName}}的一些信息：
<start>
{{masterProfile}}
</end>

## 你们的群组
你和{{masterName}}所在的群组名为{{roomName}}。这是群组的简介：
<start>
{{roomIntroduction}}
</end>

## 聊天历史回顾
为了更好地接入对话，请回顾你们之间的最近几条消息：
<start>
{{messages}}
</end>

## 短期记忆
你可以记住一些短期内的细节，以便更紧密地贴合话题：
<start>
{{shortTermMemory}}
</end>

## 长期记忆
你还保留着一些长期的记忆，这有助于让你的对话更加丰富和连贯：
<start>
{{longTermMemory}}
</end>

## 回复指南
在回复{{masterName}}时，请遵循以下准则：
- 认为自己正是{{botName}}，拥有独立的个性、兴趣和爱好。
- 根据你的性格特点、说话风格和兴趣爱好与{{masterName}}进行交流。
- 保持对话轻松友好，回复简洁有趣，同时耐心倾听和关心对方。
- 参考双方的个人简介、聊天记录和记忆中的信息，确保对话贴近实际，保持一致性和相关性。
- 如果对某些信息不确定或遗忘，诚实地表达你的不清楚或遗忘状态，避免编造信息。

## Response format
请遵守下面的规则
- Response the reply message in Chinese。
- 不要在回复前面加任何时间和名称前缀，请直接回复消息文本本身。

Good example: " +:+ dquote +:+
  "我是{{botName}}" +:+ dquote +:+
  "
Bad example: " +:+ dquote +:+
  "2024年02月28日星期三 23:01 {{botName}}: 我是{{botName}}" +:+ dquote +:+
  "

## 开始
请以{{botName}}的身份，直接回复{{masterName}}的新消息，继续你们之间的对话。".

Definition userTemplate : string := "{{message}}".

Record MyBot := mkBot { systemTemplate : option string }.

Section Ask.
Context {W : Type}.

(** [buildPrompt] and [formatMsg] of utils/string are not among the
    sources, and [trim] is the engine's: the three are left open. *)
Variable buildPrompt : string -> list (string * string) -> string.
Variable formatMsg : string -> string -> Z -> string.
Variable trim : string -> string.
Variable self : MyBot.

Abbreviation P := (Prog Event W).

Definition log (line : LogLine) : P unit := emit (Log line).

(** [x!.field]: a [TypeError] when [x] is missing. *)
Definition nonNull {A} (o : option A) : P A :=
  match o with
  | Some a => ret a
  | None => throw "TypeError"
  end.

Definition newline : string := String "010"%char EmptyString.

(** The [messages] entry of the system prompt. *)
Definition history (lastMessages : list Stored) : string :=
  if Nat.ltb (length lastMessages) 1 then "暂无历史消息"
  else String.concat newline
         (map (fun e => formatMsg (u_name (sender e)) (s_text e) (createdAt e))
              lastMessages).

Definition systemPrompt (b m : User) (rm : Room)
    (shortTermMemory longTermMemory : string) (lastMessages : list Stored)
    : string :=
  buildPrompt (default kDefaultSystemTemplate (systemTemplate self))
    [("shortTermMemory", shortTermMemory);
     ("longTermMemory", longTermMemory);
     ("botName", u_name b);
     ("botProfile", trim (u_profile b));
     ("masterName", u_name m);
     ("masterProfile", trim (u_profile m));
     ("roomName", room_name rm);
     ("roomIntroduction", trim (room_description rm));
     ("messages", history lastMessages)].

Definition userPrompt (m : User) (msg : Speaker.QueryMessage) : string :=
  buildPrompt userTemplate
    [("message",
      formatMsg (u_name m) (Speaker.text msg) (Speaker.timestamp msg))].

(** The closure [onFinished] of [ask], over the context it captured. *)
Definition onFinished (ctx : MessageContext) (text : string) : P unit :=
  when (truthy text)
    (t <- trigger DateNow;;
     call (OnMessage ctx (mkNew text t (ctx_bot ctx)));;
     log ReplySaved).

Definition ask (msg : Speaker.QueryMessage) : P Speaker.SpeakerAnswer :=
  cfg <- call ManagerGet;;
  match memory cfg with
  | None => ret (Speaker.mkAnswer None None)
  | Some mem =>
      let ctx := mkCtx (bot cfg) (master cfg) (room cfg) in
      lastMessages <- call (GetMessages 10);;
      shortTermMemories <- call (GetShortTermMemories mem 1);;
      let shortTermMemory :=
        default "短期记忆为空" (m_text <$> head shortTermMemories) in
      longTermMemories <- call (GetLongTermMemories mem 1);;
      let longTermMemory :=
        default "长期记忆为空" (m_text <$> head longTermMemories) in
      b <- nonNull (bot cfg);;
      m <- nonNull (master cfg);;
      log (BuildingRequest (u_name b) (u_name m));;
      log (ShortTermLine (Nat.ltb 0 (length shortTermMemories)));;
      log (LongTermLine (Nat.ltb 0 (length longTermMemories)));;
      log (HistoryLine (length lastMessages));;
      rm <- nonNull (room cfg);;
      let system := systemPrompt b m rm shortTermMemory longTermMemory
                      lastMessages in
      let user := userPrompt m msg in
      call (OnMessage ctx
              (mkNew (Speaker.text msg) (Speaker.timestamp msg) (master cfg)));;
      log UserSaved;;
      stream <- call (ChatWithStreamResponse system user ctx);;
      ret (Speaker.mkAnswer None (Some stream))
  end.

End Ask.

End Bot.

(** ** Further observations of a trace *)

Module Observe.

(** The number of sentences [generateSentences] is to produce: one per
    choice of a word in each group. *)
Definition sentenceCount (groups : list (list string)) : nat :=
  fold_right (fun g n => length g * n) 1 groups.

(** A bag without an answer and without a playback error. *)
Definition quietBag (data : gmap string Speaker.Value) : Prop :=
  Speaker.truthyV (Speaker.field "answer" data) = false
  /\ Speaker.isError (Speaker.field "res" data) = false.

(** The names given to [switchSpeaker], in order. *)
Definition switched (tr : list (Call Speaker.Event)) : list string :=
  flat_map (fun c =>
    match c with
    | Called e => match e with Speaker.SwitchSpeaker n => [n] | _ => [] end
    end) tr.

Definition unWakeUps (tr : list (Call Speaker.Event)) : nat :=
  length (List.filter (fun c : Call Speaker.Event =>
    match c with
    | Called e => match e with Speaker.UnWakeUp => true | _ => false end
    end) tr).

Definition superExits (tr : list (Call Speaker.Event)) : nat :=
  length (List.filter (fun c : Call Speaker.Event =>
    match c with
    | Called e => match e with Speaker.SuperExitKeepAlive => true | _ => false end
    end) tr).

(** The [signal] options of the [create] calls of [chat], in order. *)
Definition signals (tr : list (Call OpenAI.Event))
    : list (option OpenAI.Controller) :=
  flat_map (fun c =>
    match c with
    | Called e => match e with OpenAI.Create _ _ sg => [sg] | _ => [] end
    end) tr.

(** The number of [AbortController]s constructed. *)
Definition controllersMade (tr : list (Call OpenAI.Event)) : nat :=
  length (List.filter (fun c : Call OpenAI.Event =>
    match c with
    | Called e => match e with OpenAI.NewAbortController => true | _ => false end
    end) tr).

(** The errors of the model reported to the logger, in order. *)
Definition llmErrors (tr : list (Call OpenAI.Event)) : list string :=
  flat_map (fun c =>
    match c with
    | Called e =>
        match e with
        | OpenAI.LogError (OpenAI.LLMError err) => [err]
        | _ => []
        end
    end) tr.

(** The request stays registered and its [StreamResponse] is not
    canceled. *)
Definition steady {W} `{OpenAI.StreamState W} (requestId : string)
    (stream : OpenAI.StreamRef) (s : OpenAI.Sys W) : Prop :=
  OpenAI._abortCallbacks (OpenAI.openai s) !! requestId <> None
  /\ OpenAI.streamStatus (OpenAI.outside s) stream <> "canceled".

(** The environment leaves the client to its own methods: nobody else
    writes to the [openai] object while a request runs. *)
Definition undisturbed {W} (h : Handler OpenAI.Event (OpenAI.Sys W)) : Prop :=
  forall X (e : OpenAI.Event X) (s : OpenAI.Sys W),
    OpenAI.openai (snd (h X e s)) = OpenAI.openai s.

(** An own entry under [id], if there is one, is the callback [f]. *)
Definition mine {W} (id : string) (f : OpenAI.VoidFunction)
    (s : OpenAI.Sys W) : Prop :=
  forall g, OpenAI._abortCallbacks (OpenAI.openai s) !! id = Some g -> g = f.

(** The calls on a [StreamResponse]. *)
Definition isStreamCall {X} (e : OpenAI.Event X) : bool :=
  match e with
  | OpenAI.AddResponse _ _ | OpenAI.Finish _ _ | OpenAI.CancelStream _ => true
  | _ => false
  end.

(** Nothing but a call on a [StreamResponse] changes what is outside the
    client: nobody else acts while the request runs. *)
Definition alone {W} (h : Handler OpenAI.Event (OpenAI.Sys W)) : Prop :=
  forall X (e : OpenAI.Event X) (s : OpenAI.Sys W),
    isStreamCall e = false -> OpenAI.outside (snd (h X e s)) = OpenAI.outside s.

(** Modelled from the spec: [StreamResponse] is not among the sources.
    The spec has the calls made after a terminal state silently dropped;
    of these, [finish] and [cancel] on a canceled stream are taken to
    leave everything outside the client as it was.  What [addResponse]
    does is left open. *)
Definition dropsLateCalls {W} `{OpenAI.StreamState W}
    (h : Handler OpenAI.Event (OpenAI.Sys W)) (stream : OpenAI.StreamRef) : Prop :=
  forall s : OpenAI.Sys W,
    OpenAI.streamStatus (OpenAI.outside s) stream = "canceled" ->
    (forall a, OpenAI.outside (snd (h _ (OpenAI.Finish stream a) s))
               = OpenAI.outside s)
    /\ OpenAI.outside (snd (h _ (OpenAI.CancelStream stream) s))
       = OpenAI.outside s.

(** The texts of the chunks that carry one. *)
Definition texts (chunks : list OpenAI.Chunk) : list string :=
  List.filter truthy (map OpenAI.chunkText chunks).

End Observe.

(** A program that only ever appends to the trace of the run it is
    started in. *)
Definition extends {E : Type -> Type} {S A : Type} (c : Prog E S A) : Prop :=
  forall (h : Handler E S) (r : Run E S),
    exists new, trace (snd (c h r)) = (trace r ++ new)%list.

(** ** A concrete device, for running the methods *)

Module Demo.
Import Speaker.

(** The state of a device: the fields read by [AISpeaker] and the number
    of user messages received so far. *)
Record Device := mkDevice {
  d_keepAlive : bool;
  d_status : string;
  d_streamResponse : bool;
  d_audioBeep : option string;
  d_received : nat
}.

(** Modelled from the spec: [Speaker.checkIfHasNewMsg] is not among the
    sources; the snapshot is the position of the tail of the incoming
    messages, and [hasNewMsg] holds when a message was appended since. *)
#[global] Instance Device_base : SpeakerBase Device := {
  keepAlive := d_keepAlive;
  status := d_status;
  streamResponse := d_streamResponse;
  audioBeep := d_audioBeep;
  checkIfHasNewMsg := fun _ w => fun w' => Nat.ltb (d_received w) (d_received w')
}.

Definition receive (w : Device) : Device :=
  mkDevice (d_keepAlive w) (d_status w) (d_streamResponse w) (d_audioBeep w)
           (Datatypes.S (d_received w)).

Definition idle : Device := mkDevice false "running" true None 0.
Definition active : Device := mkDevice true "running" true None 0.
Definition noStream : Device := mkDevice false "running" false None 0.

Definition emptyConfig : AISpeakerConfig :=
  mkConfig None None None None None None None None None None None None None.

Definition speaker : AISpeaker :=
  constructor (mkEnv None None)
    (mkConfig (Some 0) None None None None None None None None None None None None).

Definition hello : QueryMessage := mkMsg "请问今天天气" 1.

Definition reply : Value := VAnswer (mkAnswer (Some "晴") None).

(** Every call succeeds and nothing else happens meanwhile; [pickOne]
    takes the first phrase. *)
Definition quiet : Handler Event Device := fun X e w =>
  match e in Event X return X * Device with
  | Response _ => (Val VUndefined, w)
  | CallAskAI _ _ => (Val reply, w)
  | WakeUp => (Val tt, w)
  | UnWakeUp => (Val tt, w)
  | SuperEnterKeepAlive => (Val tt, w)
  | SuperExitKeepAlive => (Val tt, w)
  | SwitchSpeaker _ => (Val true, w)
  | PickOne l => (head l, w)
  | Log _ => (tt, w)
  end.

(** As [quiet], but the user speaks again while the model is asked. *)
Definition bargeIn : Handler Event Device := fun X e w =>
  match e in Event X return X * Device with
  | CallAskAI _ _ => (Val reply, receive w)
  | e => quiet _ e w
  end.

(** As [quiet], but [askAI] rejects. *)
Definition failingAI : Handler Event Device := fun X e w =>
  match e in Event X return X * Device with
  | CallAskAI _ _ => (Exn "ask failed", w)
  | e => quiet _ e w
  end.

Definition fresh (w : Device) : Run Event Device := mkRun w [].

End Demo.

(** ** A concrete process, for running the client *)

Module DemoAI.
Import OpenAI.

(** The outside of the client: the status of the one [StreamResponse] and
    the texts it was given. *)
Record Room := mkRoom { buffer : string; heard : list string }.

#[global] Instance Room_streams : StreamState Room := {
  streamStatus := fun w _ => buffer w
}.

Definition envs : Envs := mkEnvs None None None false.

(** An [isEmpty] for which exactly the empty string is empty. *)
Definition isEmpty (s : string) : bool := negb (truthy s).

Definition chunkOf (t : string) : Chunk :=
  mkChunk [mkChoice (Some (mkDelta (Some t)))].

Definition greeting : Stream :=
  mkStream 7 [chunkOf "你"; chunkOf "好"; chunkOf "！"].

Definition hear (t : string) (s : Sys Room) : Sys Room :=
  mkSys (openai s) (mkRoom (buffer (outside s)) (heard (outside s) ++ [t])).

Definition setBuffer (st : string) (s : Sys Room) : Sys Room :=
  mkSys (openai s) (mkRoom st (heard (outside s))).

(** A server that streams the greeting; the [StreamResponse] keeps what
    it is given and changes status when finished or canceled. *)
Definition server : Handler Event (Sys Room) := fun X e s =>
  match e in Event X return X * Sys Room with
  | Log _ => (tt, s)
  | LogError _ => (tt, s)
  | Abort _ => (tt, s)
  | NewAbortController => (7, s)
  | Create _ _ _ =>
      (Val (mkCompletion (Some [mkCChoice (Some (mkMessage (Some "你好")))])), s)
  | CreateStream _ _ => (Val greeting, s)
  | AwaitNext _ => (Val tt, s)
  | RandomUUID => ("r1", s)
  | NewStreamResponse _ => (0, s)
  | AddResponse _ t => (tt, hear t s)
  | Finish _ _ => (tt, setBuffer "finished" s)
  | CancelStream _ => (tt, setBuffer "canceled" s)
  end.

(** As [server], but the request for a stream is rejected. *)
Definition down : Handler Event (Sys Room) := fun X e s =>
  match e in Event X return X * Sys Room with
  | CreateStream _ _ => (Exn "offline", s)
  | Create _ _ _ => (Exn "offline", s)
  | e => server _ e s
  end.

Definition ask (requestId : option string) : ChatOptions :=
  mkOptions "今天天气" None None None None requestId (Some true) None.

Definition start (status : string) : Run Event (Sys Room) :=
  mkRun (mkSys newClient (mkRoom status [])) [].

(** A run in which a callback for "r1" is registered. *)
Definition registered (status : string) : Run Event (Sys Room) :=
  mkRun (mkSys (mkClient false true None None {[ "r1" := AbortOf 7 ]} None)
               (mkRoom status [])) [].

(** A stream that ends after two chunks. *)
Definition short : Stream := mkStream 7 [chunkOf "你"; chunkOf "好"].

(** As [server], but the stream is [short] and the [StreamResponse] is
    canceled as soon as it has been given the first chunk: the user spoke
    again. *)
Definition interrupted : Handler Event (Sys Room) := fun X e s =>
  match e in Event X return X * Sys Room with
  | CreateStream _ _ => (Val short, s)
  | AddResponse _ t => (tt, setBuffer "canceled" (hear t s))
  | e => server _ e s
  end.

(** The run of a request "r1" whose [StreamResponse] was canceled
    before the first chunk: at loop entry, and after the first chunk. *)
Definition canceledCallback : option (string -> Prog Event (Sys Room) unit) :=
  Some (onStream envs "r1" 0).

Definition opened : Run Event (Sys Room) :=
  Eval vm_compute in
    snd (openStream envs isEmpty (ask (Some "r1")) server (start "canceled")).

Definition afterFirst : string * nat * Run Event (Sys Room) :=
  Eval vm_compute in
    default ("", 0, opened)
      (consumed (Some "r1") canceledCallback 7 [chunkOf "你"] "" 0 server opened).

End DemoAI.

(** ** Further concrete runs *)

Module Scenes.

(** As [Demo.quiet], but the model has nothing to say. *)
Definition silentAI : Handler Speaker.Event Demo.Device := fun X e w =>
  match e in Speaker.Event X return X * Demo.Device with
  | Speaker.CallAskAI _ _ => (Val Speaker.VUndefined, w)
  | e => Demo.quiet _ e w
  end.

Definition switchTo : Speaker.QueryMessage :=
  Speaker.mkMsg "把音色切换到小美" 2.

(** A step that asks to stop. *)
Definition halt : @Speaker.AnswerStep Demo.Device :=
  fun _ _ => ret (Some (Speaker.mkStep true None)).

(** The bag after a successful request and playback. *)
Definition answered : Speaker.Bag := {[ "answer" := Demo.reply ]}.

(** As [DemoAI.server], but a [StreamResponse] that is canceled keeps its
    status. *)
Definition calm : Handler OpenAI.Event (OpenAI.Sys DemoAI.Room) := fun X e s =>
  match e in OpenAI.Event X return X * OpenAI.Sys DemoAI.Room with
  | OpenAI.CancelStream _ => (tt, s)
  | e => DemoAI.server _ e s
  end.

(** As [DemoAI.server], but reading the stream fails: the connection
    is lost after the response has started. *)
Definition broken : Handler OpenAI.Event (OpenAI.Sys DemoAI.Room) := fun X e s =>
  match e in OpenAI.Event X return X * OpenAI.Sys DemoAI.Room with
  | OpenAI.AwaitNext _ => (Exn "socket hang up", s)
  | e => DemoAI.server _ e s
  end.

(** As [DemoAI.server], with a [StreamResponse] that drops [finish] and
    [cancel] once it is canceled. *)
Definition finalised : Handler OpenAI.Event (OpenAI.Sys DemoAI.Room) := fun X e s =>
  match e in OpenAI.Event X return X * OpenAI.Sys DemoAI.Room with
  | OpenAI.Finish _ _ =>
      (tt, if String.eqb (DemoAI.buffer (OpenAI.outside s)) "canceled"
           then s else DemoAI.setBuffer "finished" s)
  | OpenAI.CancelStream _ =>
      (tt, if String.eqb (DemoAI.buffer (OpenAI.outside s)) "canceled"
           then s else DemoAI.setBuffer "canceled" s)
  | e => DemoAI.server _ e s
  end.

(** The request of the bot for "r1", on a [StreamResponse] that was
    canceled before the first chunk: the run at the entry of the loop. *)
Definition entered : Run OpenAI.Event (OpenAI.Sys DemoAI.Room) :=
  Eval vm_compute in
    snd (OpenAI.openStream DemoAI.envs DemoAI.isEmpty
           (OpenAI.withRequest (DemoAI.ask None) "r1") finalised
           (DemoAI.start "canceled")).

(** A conversation store in which every call succeeds and the history
    and both memories are empty. *)
Definition xiaoai : Bot.User := Bot.mkUser "小爱" "智能音箱".
Definition owner : Bot.User := Bot.mkUser "主人" "".
Definition home : Bot.Room := Bot.mkRoom "客厅" "".

Definition store (cfg : Bot.BotConfig) : Handler Bot.Event unit := fun X e s =>
  match e in Bot.Event X return X * unit with
  | Bot.ManagerGet => (Val cfg, s)
  | Bot.GetMessages _ => (Val [], s)
  | Bot.GetShortTermMemories _ _ => (Val [], s)
  | Bot.GetLongTermMemories _ _ => (Val [], s)
  | Bot.OnMessage _ _ => (Val tt, s)
  | Bot.ChatWithStreamResponse _ _ _ => (Val 0, s)
  | Bot.DateNow => (5%Z, s)
  | Bot.Log _ => (tt, s)
  end.


Definition forgetful : Bot.BotConfig :=
  Bot.mkBotConfig (Some xiaoai) (Some owner) (Some home) None.

Definition roomless : Bot.BotConfig :=
  Bot.mkBotConfig (Some xiaoai) (Some owner) None (Some 0).

(** Stand-ins for the helpers left open: the template as it is, the
    name before the text, and no trimming. *)
Definition plainPrompt (template : string) (_ : list (string * string)) : string :=
  template.

Definition plainMsg (name text : string) (_ : Z) : string :=
  name +:+ ": " +:+ text.

Definition asIs (s : string) : string := s.

Definition theBot : Bot.MyBot := Bot.mkBot None.

Definition question : Prog Bot.Event unit Speaker.SpeakerAnswer :=
  Bot.ask plainPrompt plainMsg asIs theBot Demo.hello.

Definition dawn : Run Bot.Event unit := mkRun tt [].

End Scenes.

(** * Properties *)

(** ** Strings *)

Lemma append_cons (c : ascii) (s t : string) :
  String c s +:+ t = String c (s +:+ t).
Proof. reflexivity. Qed.

Lemma append_nil_r (s : string) : s +:+ "" = s.
Proof.
  induction s as [|c s IH]; [reflexivity|]. now rewrite append_cons, IH.
Qed.

Lemma append_assoc (a b c : string) : (a +:+ b) +:+ c = a +:+ (b +:+ c).
Proof.
  induction a as [|x a IH]; [reflexivity|]. now rewrite !append_cons, IH.
Qed.

Lemma prefix_cons (c d : ascii) (e s : string) :
  String.prefix (String c e) (String d s)
  = if ascii_dec c d then String.prefix e s else false.
Proof. reflexivity. Qed.

(** [startsWith] is the literal prefix test. *)
Lemma startsWith_prefix (s e : string) :
  startsWith s e = true <-> exists rest, s = e +:+ rest.
Proof.
  unfold startsWith. revert s.
  induction e as [|c e IH]; intros s.
  - split; [intros _; exists s; reflexivity | intros _; now destruct s].
  - destruct s as [|d s].
    + split; [discriminate | intros [rest Hrest]; discriminate].
    + rewrite prefix_cons. destruct (ascii_dec c d) as [->|Hne].
      * rewrite IH. split; intros [rest Hr]; exists rest.
        -- now rewrite append_cons, Hr.
        -- rewrite append_cons in Hr. congruence.
      * split; [discriminate | intros [rest Hr]].
        rewrite append_cons in Hr. congruence.
Qed.

Lemma some_exists {A} (p : A -> bool) (xs : list A) :
  some p xs = true <-> exists x, In x xs /\ p x = true.
Proof. apply existsb_exists. Qed.

(** A keyword list matches a text when one of its entries is a literal
    prefix of the text. *)
Lemma some_startsWith (txt : string) (kws : list string) :
  some (fun e => startsWith txt e) kws = true
  <-> exists e rest, In e kws /\ txt = e +:+ rest.
Proof.
  rewrite some_exists. split.
  - intros (e & Hin & Hp). apply startsWith_prefix in Hp as [rest Hr]. eauto.
  - intros (e & rest & Hin & Hr). exists e. split; [assumption|].
    apply startsWith_prefix. eauto.
Qed.

(** ** The default voice-switch prefixes *)

Section SwitchPrefixFacts.
Import SwitchPrefix.

Lemma join_snoc (l : list string) (w : string) : join (l ++ [w]) = join l +:+ w.
Proof.
  unfold join. induction l as [|x l IH]; simpl; [reflexivity|].
  destruct l as [|y l]; simpl in *; [reflexivity|].
  rewrite IH. now rewrite append_assoc.
Qed.

(** [generate] appends to [results] one sentence per choice of a word
    from each remaining group, and leaves [currentSentence] as it was. *)
Lemma generate_spec (rest : list (list string)) :
  forall st,
    generate rest st =
    mkGen (currentSentence st)
          (results st ++
           map (fun s => join (currentSentence st) +:+ s) (spec_sentences rest)).
Proof.
  induction rest as [|ws rest IH]; intros [cur res]; simpl.
  - unfold push_result; simpl. now rewrite append_nil_r.
  - revert res. induction ws as [|w ws IHws]; intros res; simpl.
    + now rewrite app_nil_r.
    + rewrite IH. unfold pop_word, push_word; simpl.
      rewrite removelast_last, IHws. f_equal.
      rewrite <- app_assoc. f_equal.
      rewrite map_app. f_equal.
      rewrite map_map. apply map_ext. intros s.
      now rewrite join_snoc, append_assoc.
Qed.

Lemma generateSentences_spec (ws : list (list string)) :
  generateSentences ws = spec_sentences ws.
Proof.
  unfold generateSentences. rewrite generate_spec. simpl.
  rewrite <- (map_id (spec_sentences ws)) at 2.
  apply map_ext. reflexivity.
Qed.

(** C10. Without a configured [switchSpeakerKeywords], the speaker's
    prefixes are the 36 concatenations of one word per group, in group
    order and in nested left-to-right enumeration order. *)
Theorem default_switchSpeakerKeywords (env : Speaker.ProcessEnv)
    (config : Speaker.AISpeakerConfig) :
  Speaker.c_switchSpeakerKeywords config = None ->
  Speaker.switchSpeakerKeywords (Speaker.constructor env config) = spec_prefixes
  /\ length (Speaker.switchSpeakerKeywords (Speaker.constructor env config)) = 36.
Proof.
  intros Hnone. unfold Speaker.constructor; simpl. rewrite Hnone. simpl.
  unfold getDefaultSwitchSpeakerPrefix. rewrite generateSentences_spec.
  split; reflexivity.
Qed.
End SwitchPrefixFacts.

Lemma default_switchSpeakerKeywords_witness :
  Speaker.switchSpeakerKeywords
    (Speaker.constructor (Speaker.mkEnv None None) Demo.emptyConfig)
  = SwitchPrefix.spec_prefixes
  /\ length (Speaker.switchSpeakerKeywords
               (Speaker.constructor (Speaker.mkEnv None None) Demo.emptyConfig)) = 36.
Proof. apply default_switchSpeakerKeywords. reflexivity. Defined.

(** ** Programs *)

Section ProgFacts.
Context {E : Type -> Type} {S : Type}.
Implicit Types (h : Handler E S) (r : Run E S).

Lemma bind_val {A B} (c : Prog E S A) (k : A -> Prog E S B) h r a r' :
  c h r = (Val a, r') -> bind c k h r = k a h r'.
Proof. intros Hc. unfold bind. now rewrite Hc. Qed.

Lemma bind_exn {A B} (c : Prog E S A) (k : A -> Prog E S B) h r err r' :
  c h r = (Exn err, r') -> bind c k h r = (Exn err, r').
Proof. intros Hc. unfold bind. now rewrite Hc. Qed.

Lemma bind_emit {B} (e : E unit) (k : unit -> Prog E S B) h r :
  bind (emit e) k h r = k tt h (mkRun (now r) (trace r ++ [Called e])).
Proof. reflexivity. Qed.

Lemma bind_read {A B} (f : S -> A) (k : A -> Prog E S B) h r :
  bind (read f) k h r = k (f (now r)) h r.
Proof. reflexivity. Qed.

Lemma bind_ret {A B} (a : A) (k : A -> Prog E S B) h r :
  bind (ret a) k h r = k a h r.
Proof. reflexivity. Qed.

Lemma bind_bind {A B C} (c : Prog E S A) (k : A -> Prog E S B)
    (k' : B -> Prog E S C) h r :
  bind (bind c k) k' h r = bind c (fun a => bind (k a) k') h r.
Proof. unfold bind. destruct (c h r) as [[a|err] r']; reflexivity. Qed.

(** A call that resolves / rejects. *)
Lemma call_eq {X} (e : E (Outcome X)) h r :
  call e h r =
  (fst (h _ e (now r)), mkRun (snd (h _ e (now r))) (trace r ++ [Called e])).
Proof.
  unfold call, bind, trigger. destruct (h _ e (now r)) as [[x|err] s']; reflexivity.
Qed.
End ProgFacts.

(** ** The answer pipeline and the command list *)

Section SpeakerFacts.
Import Speaker.
Context {W : Type} `{SpeakerBase W}.
Variable self : AISpeaker.
Variable _commands : list (@SpeakerCommand W).
Implicit Types (h : Handler Event W) (r : Run Event W).

Lemma runSteps_reached pre post msg hasNewMsg :
  forall data h r data' r',
    reached pre msg hasNewMsg data h r = Some (data', r') ->
    runSteps (pre ++ post) msg hasNewMsg data h r
    = runSteps post msg hasNewMsg data' h r'.
Proof.
  induction pre as [|a pre IH]; intros data h r data' r' Hr; simpl in *.
  - now inversion Hr.
  - unfold bind at 1.
    destruct (turn a msg hasNewMsg data h r) as [[[ | d | d]|err] r1];
      try discriminate.
    now apply IH.
Qed.

(** The turn of a step after which the check fires. *)
Lemma turn_superseded action msg hasNewMsg data h r res r' :
  action msg data h r = (Val res, r') ->
  superseded hasNewMsg (now r') = true ->
  turn action msg hasNewMsg data h r
  = (Val Return_, mkRun (now r') (trace r' ++ [interruptLine])).
Proof.
  intros Ha Hs. unfold turn. rewrite (bind_val _ _ _ _ _ _ Ha), bind_read, Hs.
  reflexivity.
Qed.

(** The turn of a step that throws. *)
Lemma turn_throws action msg hasNewMsg data h r err r' :
  action msg data h r = (Exn err, r') ->
  turn action msg hasNewMsg data h r = (Exn err, r').
Proof. intros Ha. unfold turn. now rewrite (bind_exn _ _ _ _ _ _ Ha). Qed.

Lemma askAIForAnswerOver_eq steps msg h r :
  askAIForAnswerOver steps msg h r =
  match runSteps steps msg (checkIfHasNewMsg msg (now r)) ∅ h (started msg r) with
  | (Val None, r') => (Val tt, r')
  | (Val (Some _), r') =>
      (Val tt, mkRun (now r') (trace r' ++ [doneLine]))
  | (Exn err, r') => (Exn err, r')
  end.
Proof.
  unfold askAIForAnswerOver, log. rewrite bind_emit, bind_read.
  unfold bind, started; simpl.
  destruct (runSteps _ _ _ _ _ _) as [[[d|]|err] r']; reflexivity.
Qed.

(** C1. If the check made after the step at position [k] of the six-step
    list finds a new user message or a status other than "running", the
    run ends there: its final state is the state that step left, with
    the interruption logged, so that none of the later steps ran and
    nothing done by the earlier ones was undone. *)
Theorem askAIForAnswer_superseded msg h r k (action : AnswerStep) data r1 res r2 :
  _askAIForAnswerSteps self !! k = Some action ->
  reached (take k (_askAIForAnswerSteps self)) msg
          (checkIfHasNewMsg msg (now r)) ∅ h (started msg r) = Some (data, r1) ->
  action msg data h r1 = (Val res, r2) ->
  superseded (checkIfHasNewMsg msg (now r)) (now r2) = true ->
  askAIForAnswer self msg h r
  = (Val tt, mkRun (now r2) (trace r2 ++ [interruptLine])).
Proof.
  intros Hk Hreach Hact Hsup.
  unfold askAIForAnswer. rewrite askAIForAnswerOver_eq.
  rewrite <- (take_drop_middle _ _ _ Hk) at 1.
  rewrite (runSteps_reached _ _ _ _ _ _ _ _ _ Hreach). simpl.
  unfold bind at 1. rewrite (turn_superseded _ _ _ _ _ _ _ _ Hact Hsup).
  reflexivity.
Qed.

Lemma reached_app pre post msg hasNewMsg :
  forall data h r data' r',
    reached pre msg hasNewMsg data h r = Some (data', r') ->
    reached (pre ++ post) msg hasNewMsg data h r
    = reached post msg hasNewMsg data' h r'.
Proof.
  induction pre as [|a pre IH]; intros data h r data' r' Hr; simpl in *.
  - now inversion Hr.
  - destruct (turn a msg hasNewMsg data h r) as [[[ | d | d]|err] r1];
      try discriminate.
    now apply IH.
Qed.

(** The turn of a step that resolves to nothing and is not superseded. *)
Lemma turn_void action msg hasNewMsg data h r r' :
  action msg data h r = (Val None, r') ->
  superseded hasNewMsg (now r') = false ->
  turn action msg hasNewMsg data h r = (Val (Next data), r').
Proof.
  intros Ha Hs. unfold turn. rewrite (bind_val _ _ _ _ _ _ Ha), bind_read, Hs.
  reflexivity.
Qed.

(** C6, as the code has it. A step that throws is not absorbed: the
    exception leaves [askAIForAnswer] at once, in the state the step
    left, so that no later step runs.  A step that resolves to nothing
    leaves the bag as it was and, unless the run is superseded, the loop
    goes on to the next step. *)
Theorem askAIForAnswer_step_failure msg h r k (action : AnswerStep) data r1 :
  _askAIForAnswerSteps self !! k = Some action ->
  reached (take k (_askAIForAnswerSteps self)) msg
          (checkIfHasNewMsg msg (now r)) ∅ h (started msg r) = Some (data, r1) ->
  (forall err r2,
      action msg data h r1 = (Exn err, r2) ->
      askAIForAnswer self msg h r = (Exn err, r2))
  /\ (forall r2,
      action msg data h r1 = (Val None, r2) ->
      superseded (checkIfHasNewMsg msg (now r)) (now r2) = false ->
      reached (take (Datatypes.S k) (_askAIForAnswerSteps self)) msg
              (checkIfHasNewMsg msg (now r)) ∅ h (started msg r)
      = Some (data, r2)).
Proof.
  intros Hk Hreach. split.
  - intros err r2 Hact.
    unfold askAIForAnswer. rewrite askAIForAnswerOver_eq.
    rewrite <- (take_drop_middle _ _ _ Hk) at 1.
    rewrite (runSteps_reached _ _ _ _ _ _ _ _ _ Hreach). simpl.
    unfold bind at 1. now rewrite (turn_throws _ _ _ _ _ _ _ _ Hact).
  - intros r2 Hact Hsup.
    rewrite (take_S_r _ _ _ Hk).
    rewrite (reached_app _ _ _ _ _ _ _ _ _ Hreach). simpl.
    now rewrite (turn_void _ _ _ _ _ _ _ Hact Hsup).
Qed.

(** C9. With [streamResponse] off, [enterKeepAlive] speaks the notice
    and returns: that one [response] call is all it does, so the base
    class [enterKeepAlive] is not invoked and no enter phrase is
    picked or spoken.  Conversely, whenever the base class
    [enterKeepAlive] is invoked, [streamResponse] was on. *)
Theorem enterKeepAlive_guard h r :
  let notice :=
    Response (say "您已关闭流式响应(streamResponse)，无法使用连续对话模式") in
  (streamResponse (now r) = false ->
     issued (enterKeepAlive self) h r = [Called notice]
     /\ now (snd (enterKeepAlive self h r)) = snd (h _ notice (now r))
     /\ superEnters (issued (enterKeepAlive self) h r) = 0)
  /\ (superEnters (issued (enterKeepAlive self) h r) <> 0 ->
      streamResponse (now r) = true).
Proof.
  intros notice.
  assert (Hoff : streamResponse (now r) = false ->
     issued (enterKeepAlive self) h r = [Called notice]
     /\ now (snd (enterKeepAlive self h r)) = snd (h _ notice (now r))).
  { intros Hs.
    assert (Heq : enterKeepAlive self h r
                  = (match fst (h _ notice (now r)) with
                     | Val _ => Val tt
                     | Exn err => Exn err
                     end,
                     mkRun (snd (h _ notice (now r))) (trace r ++ [Called notice]))).
    { unfold enterKeepAlive. rewrite bind_read, Hs. simpl.
      unfold response. unfold bind at 1. rewrite call_eq.
      fold notice. destruct (h _ notice (now r)) as [[v|err] w']; reflexivity. }
    unfold issued. rewrite Heq. simpl. rewrite drop_app_length.
    split; reflexivity. }
  split.
  - intros Hs. destruct (Hoff Hs) as [Hi Hn]. rewrite Hi. repeat split; auto.
  - intros Hne. destruct (streamResponse (now r)) eqn:Hs; [reflexivity|].
    destruct (Hoff eq_refl) as [Hi _]. rewrite Hi in Hne. now contradiction Hne.
Qed.

(** *** What each step does *)

Lemma trace_bind_ret {A B} (c : Prog Event W A) (b : B) h r :
  trace (snd (bind c (fun _ => ret b) h r)) = trace (snd (c h r)).
Proof. unfold bind, ret. destruct (c h r) as [[a|err] r']; reflexivity. Qed.

Lemma issued_bind_ret {A B} (c : Prog Event W A) (b : B) h r :
  issued (bind c (fun _ => ret b)) h r = issued c h r.
Proof.
  unfold issued, bind, ret. destruct (c h r) as [[a|err] r']; reflexivity.
Qed.

(** Pick a phrase and, when there is one, speak it and log it. *)
Lemma announce_responses (l : list string) (opts : string -> ResponseOpts)
    (line : string -> string) h r :
  responses
    (issued
       (bind (pickOne l) (fun text =>
          ifText text (fun t =>
            bind (response (opts t)) (fun _ => log (line t))))) h r)
  = phraseSpoken (fst (h _ (PickOne l) (now r))) opts.
Proof.
  unfold issued, pickOne, ifText, response, log, phraseSpoken.
  unfold bind at 1. unfold trigger at 1.
  destruct (h _ (PickOne l) (now r)) as [[t|] w1]; simpl.
  - destruct (truthy t); simpl.
    + unfold bind at 1. rewrite call_eq. simpl.
      destruct (h _ (Response (opts t)) w1) as [[v|err] w2]; simpl;
        rewrite <- ?app_assoc, drop_app_length; reflexivity.
    + rewrite drop_app_length. reflexivity.
  - rewrite drop_app_length. reflexivity.
Qed.

Lemma step_thinking_responses msg data h r :
  responses (issued (step_thinking self msg data) h r)
  = phraseSpoken (fst (h _ (PickOne (onAIAsking self)) (now r)))
      (fun t => mkOpts (Some t) None (audioActive self) None None).
Proof.
  rewrite <- announce_responses
    with (line := fun t => "🔥 AI思考中提示: " +:+ dquote +:+ t +:+ dquote).
  unfold step_thinking, issued. f_equal. f_equal. f_equal. f_equal.
  rewrite <- bind_bind.
  unfold bind at 1. unfold ret.
  now destruct (bind _ _ h r) as [[a|err] r'].
Qed.

Ltac rw_with lem := let Q := fresh in pose proof lem as Q; rewrite Q; clear Q.
Ltac rw_emit := rw_with (@bind_emit Event W).
Ltac rw_read := rw_with (@bind_read Event W).

(** Run a program symbolically, down to the answers of the handler. *)
Ltac exec :=
  unfold issued, log, response, pickOne, ifText, call, bind, trigger, emit,
    read, ret, settle, throw; simpl.

Lemma step_askAI_spec msg data h r :
  asked (issued (step_askAI self msg data) h r)
  = match askAI self with Some f => [(f, msg)] | None => [] end
  /\ responses (issued (step_askAI self msg data) h r) = []
  /\ forall res r',
      step_askAI self msg data h r = (Val res, r') ->
      exists answer,
        res = Some (mkStep false (Some {[ "answer" := answer ]}))
        /\ field "answer" (merge data res) = answer
        /\ match askAI self with
           | Some f => fst (h _ (CallAskAI f msg) (now r)) = Val answer
           | None => answer = VUndefined
           end.
Proof.
  unfold step_askAI. exec.
  destruct (askAI self) as [f|]; simpl.
  - destruct (h _ (CallAskAI f msg) (now r)) as [[a|err] w1]; simpl;
      rewrite <- !app_assoc, drop_app_length; simpl.
    + split; [reflexivity|split; [reflexivity|]].
      intros res r' [= <- <-]. exists a.
      split; [reflexivity|split; [|reflexivity]]. unfold field, merge.
      rewrite lookup_union, lookup_singleton_eq.
      now destruct (data !! "answer").
    + split; [reflexivity|split; [reflexivity|]]. intros res r' [=].
  - rewrite <- !app_assoc, drop_app_length. simpl.
    split; [reflexivity|split; [reflexivity|]].
    intros res r' [= <- <-]. exists VUndefined.
    split; [reflexivity|split; [|reflexivity]]. unfold field, merge.
    rewrite lookup_union, lookup_singleton_eq.
    now destruct (data !! "answer").
Qed.

Lemma step_play_spec msg data h r :
  responses (issued (step_play msg data) h r)
  = (if truthyV (field "answer" data)
     then [spread (field "answer" data)] else [])
  /\ forall res r',
      step_play msg data h r = (Val res, r') ->
      if truthyV (field "answer" data) then
        exists v,
          fst (h _ (Response (spread (field "answer" data))) (now r)) = Val v
          /\ merge data res = <[ "res" := v ]> data
      else res = None /\ r' = r.
Proof.
  unfold step_play. exec.
  destruct (truthyV (field "answer" data)); simpl.
  - destruct (h _ (Response _) (now r)) as [[v|err] w1]; simpl;
      rewrite <- !app_assoc, drop_app_length; simpl.
    + split; [reflexivity|]. intros res r' [= <- <-]. exists v.
      split; [reflexivity|]. unfold merge.
      now rewrite <- insert_union_l, map_union_idemp.
    + split; [reflexivity|]. intros res r' [=].
  - rewrite drop_all.
    split; [reflexivity|]. now intros res r' [= <- <-].
Qed.

Lemma step_replied_responses msg data h r :
  responses (issued (step_replied self msg data) h r)
  = if truthyV (field "answer" data) && looseNull (field "res" data)
       && negb (truthy_opt (audioBeep (now r))) && streamResponse (now r)
    then phraseSpoken (fst (h _ (PickOne (onAIReplied self)) (now r))) say
    else [].
Proof.
  unfold step_replied, issued. rw_read. rw_read. rewrite trace_bind_ret.
  destruct (_ && _ && _ && _).
  - apply announce_responses
      with (line := fun t => "🔥 AI回复完毕提示: " +:+ dquote +:+ t +:+ dquote).
  - unfold ret. simpl. now rewrite drop_all.
Qed.

Lemma step_error_responses msg data h r :
  responses (issued (step_error self msg data) h r)
  = if isError (field "res" data)
    then phraseSpoken (fst (h _ (PickOne (onAIError self)) (now r)))
           (fun t => mkOpts (Some t) None (audioError self) None None)
    else [].
Proof.
  unfold step_error. rewrite issued_bind_ret.
  destruct (isError (field "res" data)).
  - apply announce_responses
      with (line := fun t => "🔥 AI回答异常提示: " +:+ dquote +:+ t +:+ dquote).
  - unfold issued, ret. simpl. now rewrite drop_all.
Qed.

Lemma step_rewake_spec msg data h r :
  wakeUps (issued (step_rewake msg data) h r)
  = (if keepAlive (now r) then 1 else 0)
  /\ responses (issued (step_rewake msg data) h r) = [].
Proof.
  unfold step_rewake. exec.
  destruct (keepAlive (now r)); simpl.
  - destruct (h _ WakeUp (now r)) as [[[]|err] w1]; simpl;
      rewrite <- ?app_assoc, drop_app_length; split; reflexivity.
  - rewrite drop_all. split; reflexivity.
Qed.

(** A run in which no check fired and no step threw went through the
    whole list, in order, and logged the last line. *)
Lemma askAIForAnswerOver_completed steps msg h r data r' :
  reached steps msg (checkIfHasNewMsg msg (now r)) ∅ h (started msg r)
  = Some (data, r') ->
  askAIForAnswerOver steps msg h r
  = (Val tt, mkRun (now r') (trace r' ++ [doneLine])).
Proof.
  intros Hr. rewrite askAIForAnswerOver_eq.
  rewrite <- (app_nil_r steps) at 1.
  now rewrite (runSteps_reached _ _ _ _ _ _ _ _ _ Hr).
Qed.

(** C3. The step list is the six steps, in this order: speak a
    thinking phrase; call [askAI] and put the answer in the bag; when
    there is an answer, play it and put the playback result in the bag;
    when there is an answer, the playback result is null, [audioBeep]
    is off and [streamResponse] is on, speak a done phrase; when the
    playback result is "error", speak an error phrase with the error
    cue; when [keepAlive] holds, wake the device again.  A run that is
    neither superseded nor interrupted by an exception goes through
    all six, in this order. *)
Theorem askAIForAnswerSteps_spec :
  exists thinking ask play replied error rewake : AnswerStep,
    _askAIForAnswerSteps self = [thinking; ask; play; replied; error; rewake]
    /\ (forall msg data h r,
          responses (issued (thinking msg data) h r)
          = phraseSpoken (fst (h _ (PickOne (onAIAsking self)) (now r)))
              (fun t => mkOpts (Some t) None (audioActive self) None None))
    /\ (forall msg data h r,
          asked (issued (ask msg data) h r)
          = match askAI self with Some f => [(f, msg)] | None => [] end
          /\ responses (issued (ask msg data) h r) = []
          /\ forall res r',
              ask msg data h r = (Val res, r') ->
              exists answer,
                res = Some (mkStep false (Some {[ "answer" := answer ]}))
                /\ field "answer" (merge data res) = answer
                /\ match askAI self with
                   | Some f => fst (h _ (CallAskAI f msg) (now r)) = Val answer
                   | None => answer = VUndefined
                   end)
    /\ (forall msg data h r,
          responses (issued (play msg data) h r)
          = (if truthyV (field "answer" data)
             then [spread (field "answer" data)] else [])
          /\ forall res r',
              play msg data h r = (Val res, r') ->
              if truthyV (field "answer" data) then
                exists v,
                  fst (h _ (Response (spread (field "answer" data))) (now r))
                  = Val v
                  /\ merge data res = <[ "res" := v ]> data
              else res = None /\ r' = r)
    /\ (forall msg data h r,
          responses (issued (replied msg data) h r)
          = if truthyV (field "answer" data) && looseNull (field "res" data)
               && negb (truthy_opt (audioBeep (now r))) && streamResponse (now r)
            then phraseSpoken (fst (h _ (PickOne (onAIReplied self)) (now r))) say
            else [])
    /\ (forall msg data h r,
          responses (issued (error msg data) h r)
          = if isError (field "res" data)
            then phraseSpoken (fst (h _ (PickOne (onAIError self)) (now r)))
                   (fun t => mkOpts (Some t) None (audioError self) None None)
            else [])
    /\ (forall msg data h r,
          wakeUps (issued (rewake msg data) h r)
          = (if keepAlive (now r) then 1 else 0)
          /\ responses (issued (rewake msg data) h r) = [])
    /\ (forall msg h r data r',
          reached [thinking; ask; play; replied; error; rewake] msg
                  (checkIfHasNewMsg msg (now r)) ∅ h (started msg r)
          = Some (data, r') ->
          askAIForAnswer self msg h r
          = (Val tt, mkRun (now r') (trace r' ++ [doneLine]))).
Proof.
  exists (step_thinking self), (step_askAI self), step_play,
         (step_replied self), (step_error self), step_rewake.
  split; [reflexivity|].
  split; [apply step_thinking_responses|].
  split; [apply step_askAI_spec|].
  split; [apply step_play_spec|].
  split; [apply step_replied_responses|].
  split; [apply step_error_responses|].
  split; [apply step_rewake_spec|].
  intros msg h r data r' Hr.
  exact (askAIForAnswerOver_completed _ msg h r data r' Hr).
Qed.

(** C2. The command list is, in this order: the wake command, the exit
    command, the voice-switch command, the registered commands as they
    are stored, and the fallback that runs [askAIForAnswer].  Each
    built-in match is a literal prefix test of the text against a
    keyword list, gated by [keepAlive] as stated. *)
Theorem commands_order :
  exists wake exit switch ask : SpeakerCommand,
    commands self _commands = ([wake; exit; switch] ++ _commands ++ [ask])%list
    /\ (forall msg w,
          cmd_match wake msg w = true <->
          keepAlive w = false
          /\ exists e rest, In e (wakeUpKeywords self) /\ text msg = e +:+ rest)
    /\ (forall msg w,
          cmd_match exit msg w = true <->
          keepAlive w = true
          /\ exists e rest, In e (exitKeywords self) /\ text msg = e +:+ rest)
    /\ (forall msg w,
          cmd_match switch msg w = true <->
          exists e rest, In e (switchSpeakerKeywords self) /\ text msg = e +:+ rest)
    /\ (forall msg w,
          cmd_match ask msg w = true <->
          keepAlive w = true
          \/ exists e rest, In e (callAIKeywords self) /\ text msg = e +:+ rest)
    /\ run wake = (fun _ => enterKeepAlive self)
    /\ run exit = (fun _ => exitKeepAlive self)
    /\ run ask = askAIForAnswer self
    /\ (forall i c, _commands !! i = Some c ->
          commands self _commands !! (3 + i) = Some c)
    /\ commands self _commands !! (3 + length _commands) = Some ask
    /\ length (commands self _commands) = 4 + length _commands.
Proof.
  exists (wakeCommand self), (exitCommand self), (switchCommand self),
         (askCommand self).
  split; [reflexivity|].
  split.
  { intros msg w. simpl. rewrite andb_true_iff, negb_true_iff.
    now rewrite some_startsWith. }
  split.
  { intros msg w. simpl. rewrite andb_true_iff. now rewrite some_startsWith. }
  split.
  { intros msg w. simpl. now rewrite some_startsWith. }
  split.
  { intros msg w. simpl. rewrite orb_true_iff. now rewrite some_startsWith. }
  split; [reflexivity|]. split; [reflexivity|]. split; [reflexivity|].
  split.
  { intros i c Hc. unfold commands. simpl.
    now rewrite lookup_app_l by (now apply lookup_lt_Some in Hc). }
  split.
  { unfold commands. simpl.
    rewrite lookup_app_r by lia. now rewrite Nat.sub_diag. }
  unfold commands. simpl. rewrite length_app. simpl. lia.
Qed.
End SpeakerFacts.

Lemma askAIForAnswer_superseded_witness :
  let out := Speaker.askAIForAnswer Demo.speaker Demo.hello Demo.bargeIn
               (Demo.fresh Demo.active) in
  fst out = Val tt
  /\ Speaker.responses (trace (snd out))
     = [Speaker.mkOpts (Some "让我先想想") None None None None]
  /\ Speaker.asked (trace (snd out)) = [(0, Demo.hello)]
  /\ Speaker.wakeUps (trace (snd out)) = 0.
Proof.
  intros out. subst out.
  erewrite (askAIForAnswer_superseded Demo.speaker Demo.hello Demo.bargeIn
              (Demo.fresh Demo.active) 1).
  2-5: reflexivity.
  vm_compute. repeat split; reflexivity.
Defined.

(** The claim of C6 fails on the code: when [askAI] rejects in step 2 the
    rejection leaves [askAIForAnswer], and although the device is in
    keep-alive mode step 6 does not wake it again. *)
Lemma askAIForAnswer_failure_escapes :
  let out := Speaker.askAIForAnswer Demo.speaker Demo.hello Demo.failingAI
               (Demo.fresh Demo.active) in
  fst out = Exn "ask failed"
  /\ Speaker.keepAlive (now (snd out)) = true
  /\ Speaker.wakeUps (trace (snd out)) = 0
  /\ Speaker.responses (trace (snd out))
     = [Speaker.mkOpts (Some "让我先想想") None None None None].
Proof. vm_compute. repeat split; reflexivity. Qed.

Lemma askAIForAnswer_step_failure_witness :
  fst (Speaker.askAIForAnswer Demo.speaker Demo.hello Demo.failingAI
         (Demo.fresh Demo.active))
  = Exn "ask failed".
Proof.
  edestruct (askAIForAnswer_step_failure Demo.speaker Demo.hello
               Demo.failingAI (Demo.fresh Demo.active) 1) as [Hthrow _].
  1-2: reflexivity.
  erewrite Hthrow; reflexivity.
Defined.

Lemma enterKeepAlive_guard_witness :
  issued (Speaker.enterKeepAlive Demo.speaker) Demo.quiet (Demo.fresh Demo.noStream)
  = [Called (Speaker.Response
       (Speaker.say "您已关闭流式响应(streamResponse)，无法使用连续对话模式"))].
Proof.
  apply (proj1 (enterKeepAlive_guard Demo.speaker Demo.quiet
                  (Demo.fresh Demo.noStream))).
  reflexivity.
Defined.

Lemma askAIForAnswerSteps_spec_witness :
  let out := Speaker.askAIForAnswer Demo.speaker Demo.hello Demo.quiet
               (Demo.fresh Demo.active) in
  fst out = Val tt
  /\ Speaker.responses (trace (snd out))
     = [Speaker.say "让我先想想"; Speaker.spread Demo.reply; Speaker.say "我说完了"]
  /\ Speaker.wakeUps (trace (snd out)) = 1.
Proof.
  destruct (askAIForAnswerSteps_spec Demo.speaker)
    as (s1 & s2 & s3 & s4 & s5 & s6 & Hlist & _ & _ & _ & _ & _ & _ & Hall).
  injection Hlist as <- <- <- <- <- <-.
  intros out. subst out.
  eassert (Hrun : Speaker.askAIForAnswer Demo.speaker Demo.hello Demo.quiet
                    (Demo.fresh Demo.active) = _)
    by (eapply Hall; reflexivity).
  rewrite Hrun. vm_compute. repeat split; reflexivity.
Defined.

(** ** The abort registry and the streaming request *)

Section ClientFacts.
Import OpenAI.
Context {W : Type} `{StreamState W}.
Variable kEnvs : Envs.
Variable isEmpty : string -> bool.
Implicit Types (h : Handler Event (Sys W)) (r : Run Event (Sys W)).

Lemma _init_eq h r :
  _init kEnvs h r = (Val tt, mkRun (onClient (initialised kEnvs) (now r)) (trace r)).
Proof.
  unfold _init, initialised, bind, update, read, ret, onClient; simpl.
  destruct (_client (openai (now r))); reflexivity.
Qed.

Lemma initialised_callbacks (c : OpenAIClient) :
  _abortCallbacks (initialised kEnvs c) = _abortCallbacks c.
Proof. unfold initialised; simpl. destruct (_client c); reflexivity. Qed.

Lemma initialised_proto (c : OpenAIClient) :
  _abortCallbacks_proto (initialised kEnvs c) = _abortCallbacks_proto c.
Proof. unfold initialised; simpl. destruct (_client c); reflexivity. Qed.

Lemma property_initialised (c : OpenAIClient) key :
  property (initialised kEnvs c) key = property c key.
Proof. unfold property. now rewrite initialised_callbacks, initialised_proto. Qed.

(** [cancel] on an id under which the registry has nothing, its chain
    included. *)
Lemma cancel_unknown requestId h r :
  property (openai (now r)) requestId = PUndefined ->
  cancel kEnvs requestId h r
  = (Val tt, mkRun (onClient (initialised kEnvs) (now r)) (trace r)).
Proof.
  intros Hnone. unfold cancel. rewrite (bind_val _ _ _ _ _ _ (_init_eq h r)).
  rewrite (bind_read (E:=Event)). cbn [now openai onClient].
  rewrite property_initialised, Hnone. reflexivity.
Qed.

(** Whatever [cancel] finds, it makes no call on a [StreamResponse],
    leaves what is outside the client alone, and leaves no own entry
    for the id behind. *)
Lemma cancel_effects requestId h r :
  let after := snd (cancel kEnvs requestId h r) in
  streamCalls (issued (cancel kEnvs requestId) h r) = []
  /\ outside (now after) = outside (now r)
  /\ _abortCallbacks (openai (now after)) !! requestId = None.
Proof.
  intros after. subst after. unfold issued, cancel.
  rewrite (bind_val _ _ _ _ _ _ (_init_eq h r)).
  rewrite (bind_read (E:=Event)). cbn [now openai onClient].
  rewrite property_initialised. unfold property.
  destruct (_abortCallbacks (openai (now r)) !! requestId) as [[c]|] eqn:Hreg.
  - unfold invoke, bind, emit, update, ret; simpl.
    rewrite drop_app_length, initialised_callbacks.
    repeat split. apply lookup_delete_eq.
  - assert (Hkeep : _abortCallbacks (initialised kEnvs (openai (now r)))
                    !! requestId = None)
      by now rewrite initialised_callbacks.
    pose proof (lookup_delete_eq
                  (_abortCallbacks (initialised kEnvs (openai (now r))))
                  requestId) as Hdel.
    destruct (inherited _ requestId) as [[c]|[ | | ]| | | | ];
      unfold invoke, property, bind, emit, update, read, ret, throw; simpl;
      try (first [rewrite drop_app_length | rewrite drop_all];
           repeat split; first [exact Hdel | exact Hkeep]).
    destruct (_abortCallbacks (initialised kEnvs (openai (now r))) !! "toString")
      as [[c]|]; simpl.
    { rewrite drop_app_length. repeat split. exact Hdel. }
    destruct (inherited _ "toString") as [[c]|[ | | ]| | | | ]; simpl;
      first [rewrite drop_app_length | rewrite drop_all];
      repeat split; first [exact Hdel | exact Hkeep].
Qed.

(** After an assignment that did not throw, reading the key finds the
    callback, as an own property or as the prototype. *)
Lemma assigned_property key f (this this' : OpenAIClient) :
  assigned key f this = Some this' -> property this' key = PCallback f.
Proof.
  unfold assigned, property.
  destruct (_abortCallbacks this !! key) as [g|] eqn:Hown.
  - intros [= <-]. simpl. now rewrite lookup_insert_eq.
  - unfold assignment.
    destruct (String.eqb_spec key "__proto__") as [->|Hne].
    + intros [= <-]. simpl. now rewrite Hown.
    + destruct (_abortCallbacks_proto this) as [g|];
        [destruct (includes _ key)|]; intros [= <-]; simpl;
        now rewrite lookup_insert_eq.
Qed.

(** An own entry under the key, after the assignment, is the callback. *)
Lemma assigned_own key f (this this' : OpenAIClient) g :
  assigned key f this = Some this' ->
  _abortCallbacks this' !! key = Some g -> g = f.
Proof.
  intros Has Hown. pose proof (assigned_property _ _ _ _ Has) as Hp.
  unfold property in Hp. rewrite Hown in Hp. congruence.
Qed.

(** [cancel] on an id under which reading finds a callback. *)
Lemma cancel_callback requestId c h r :
  property (openai (now r)) requestId = PCallback (AbortOf c) ->
  cancel kEnvs requestId h r =
  (Val tt,
   mkRun (onClient (setCallbacks (delete requestId))
            (onClient (initialised kEnvs) (now r)))
         (trace r ++ [Called (Abort c)])).
Proof.
  intros Hp. unfold cancel. rewrite (bind_val _ _ _ _ _ _ (_init_eq h r)).
  rewrite (bind_read (E:=Event)). cbn [now openai onClient].
  rewrite property_initialised, Hp. reflexivity.
Qed.

(** The closure on a canceled stream is [cancel], after a log line. *)
Lemma onStream_cancels requestId stream text h r :
  streamStatus (outside (now r)) stream = "canceled" ->
  onStream kEnvs requestId stream text h r
  = cancel kEnvs requestId h
      (mkRun (now r) (trace r ++ [Called (Log (BotStreamCanceled requestId))])).
Proof.
  intros Hst. unfold onStream. rewrite (bind_read (E:=Event)). now rewrite Hst.
Qed.

(** *** The registry after a request *)

(** Case analysis on the innermost scrutinee of a run, repeatedly. *)
Ltac crack H :=
  repeat match type of H with
         | context [match ?x with _ => _ end] =>
             lazymatch x with
             | context [match _ with _ => _ end] => fail
             | _ => destruct x eqn:?; simpl in H
             end
         end.

Lemma closeStream_unregistered options id res h r a r' :
  requestId options = Some id -> truthy id = true ->
  closeStream isEmpty options res h r = (Val a, r') ->
  now r' = onClient (setCallbacks (delete id)) (now r).
Proof.
  intros Hid Ht Hrun. unfold closeStream, ifId in Hrun. rewrite Hid, Ht in Hrun.
  unfold bind, update, log, emit, read, when, ret in Hrun. simpl in Hrun.
  crack Hrun; now inversion Hrun.
Qed.

Lemma chat_unregistered options id h r m r' :
  requestId options = Some id -> truthy id = true ->
  chat kEnvs isEmpty options h r = (Val m, r') ->
  unregistered id (now r').
Proof.
  intros Hid Ht Hrun. unfold chat, ifId in Hrun. rewrite Hid, Ht in Hrun.
  rewrite (bind_val _ _ _ _ _ _ (_init_eq h r)) in Hrun.
  unfold theClient, call, when, log, logError in Hrun.
  unfold bind, catch, read, emit, trigger, update, ret, settle, throw in Hrun.
  simpl in Hrun. crack Hrun; try discriminate;
    inversion Hrun; subst; apply lookup_delete_eq.
Qed.

(** *** The loop after a cancellation *)

Lemma includes_keys_None {V} (m : gmap string V) (k : string) :
  m !! k = None -> includes (keys m) k = false.
Proof.
  intros Hnone. unfold includes, keys. apply bool_decide_eq_false.
  intros Hin. apply list_elem_of_fmap in Hin as [[k' v] [-> Hin]].
  apply elem_of_map_to_list in Hin. simpl in Hnone. congruence.
Qed.

Lemma isAborted_unregistered id (this : OpenAIClient) :
  truthy id = true -> _abortCallbacks this !! id = None ->
  isAborted (Some id) this = true.
Proof.
  intros Ht Hnone. unfold isAborted.
  now rewrite Ht, (includes_keys_None _ _ Hnone).
Qed.

Lemma consume_consumed requestId onStream c pre rest :
  forall content n h r content' n' r',
    consumed requestId onStream c pre content n h r = Some (content', n', r') ->
    consume requestId onStream c (pre ++ rest) content n h r
    = consume requestId onStream c rest content' n' h r'.
Proof.
  induction pre as [|chunk pre IH]; intros content n h r content' n' r' Hc;
    simpl in Hc.
  - now inversion Hc.
  - change (consume requestId onStream c ((chunk :: pre) ++ rest) content n h r)
      with (bind (call (AwaitNext c)) (fun _ =>
              bind (onChunk requestId onStream chunk content n) (fun t =>
                match t with
                | Stop content chunkCount => ret (content, chunkCount)
                | Continue content chunkCount =>
                    consume requestId onStream c (pre ++ rest) content chunkCount
                end)) h r).
    rewrite <- (bind_bind (E:=Event)). unfold bind at 1.
    destruct (bind (call (AwaitNext c)) _ h r) as [[[ct k|ct k]|err] r1];
      try discriminate.
    now apply IH.
Qed.

Lemma call_val {X} (e : Event (Outcome X)) h r (x : X) s :
  h _ e (now r) = (Val x, s) ->
  call e h r = (Val x, mkRun s (trace r ++ [Called e])).
Proof. intros Hh. now rewrite call_eq, Hh. Qed.

Lemma onChunk_aborted id onStream chunk content n h r :
  isAborted (Some id) (openai (now r)) = true ->
  onChunk (Some id) onStream chunk content n h r
  = (Val (Stop "" n),
     mkRun (now r) (trace r ++ [Called (Log (StreamAborted id))])).
Proof.
  intros Hab. unfold onChunk. rewrite (bind_read (E:=Event)).
  cbv beta. rewrite Hab. reflexivity.
Qed.

(** The turn in which the loop finds the entry gone. *)
Lemma consume_aborted id onStream c chunk post content n h r s :
  h _ (AwaitNext c) (now r) = (Val tt, s) ->
  isAborted (Some id) (openai s) = true ->
  consume (Some id) onStream c (chunk :: post) content n h r
  = (Val ("", n),
     mkRun s (trace r ++ [Called (AwaitNext c); Called (Log (StreamAborted id))])).
Proof.
  intros Hnext Hab.
  change (consume (Some id) onStream c (chunk :: post) content n h r)
    with (bind (call (AwaitNext c)) (fun _ =>
            bind (onChunk (Some id) onStream chunk content n) (fun t =>
              match t with
              | Stop content chunkCount => ret (content, chunkCount)
              | Continue content chunkCount =>
                  consume (Some id) onStream c post content chunkCount
              end)) h r).
  rewrite (bind_val _ _ _ _ _ _ (call_val _ _ _ _ _ Hnext)).
  rewrite (bind_val _ _ _ _ _ _
             (onChunk_aborted id onStream chunk content n h (mkRun s _) Hab)).
  unfold ret. simpl. now rewrite <- app_assoc.
Qed.

(** C8, as the code has it. When the loop of [chatStream], at the
    arrival of a chunk, finds that the entry of its request id is gone,
    it stops there: no later chunk is awaited or handed to [onStream],
    the text gathered so far is dropped, and [chatStream] returns
    [undefined], without throwing. *)
Theorem chatStream_aborted options onStream id h r stream r1
    pre chunk post content n r2 s3 :
  isEmpty "" = true ->
  requestId options = Some id -> truthy id = true ->
  openStream kEnvs isEmpty options h r = (Val (Some stream), r1) ->
  chunks stream = (pre ++ chunk :: post)%list ->
  consumed (Some id) onStream (controller stream) pre "" 0 h r1
  = Some (content, n, r2) ->
  h _ (AwaitNext (controller stream)) (now r2) = (Val tt, s3) ->
  _abortCallbacks (openai s3) !! id = None ->
  chatStream kEnvs isEmpty options onStream h r
  = (Val None,
     mkRun (onClient (setCallbacks (delete id)) s3)
       (trace r2
        ++ [Called (AwaitNext (controller stream));
            Called (Log (StreamAborted id));
            Called (Log (StreamDone id n ""))]
        ++ (if default false (trace_ options) && traceOutput (openai s3)
            then [Called (Log (AnswerIs ""))] else []))).
Proof.
  intros Hempty Hid Ht Hopen Hchunks Hpre Hnext Hgone.
  unfold chatStream. rewrite (bind_val _ _ _ _ _ _ Hopen).
  rewrite Hid, Hchunks.
  assert (Hloop : consume (Some id) onStream (controller stream)
                    (pre ++ chunk :: post) "" 0 h r1
                  = (Val ("", n),
                     mkRun s3 (trace r2 ++
                       [Called (AwaitNext (controller stream));
                        Called (Log (StreamAborted id))]))).
  { rewrite (consume_consumed _ _ _ _ _ _ _ _ _ _ _ _ Hpre).
    apply consume_aborted; [exact Hnext|].
    now apply isAborted_unregistered. }
  rewrite (bind_val _ _ _ _ _ _ Hloop).
  unfold closeStream, ifId, idOrNone, withDefault. rewrite Hid, Ht. simpl.
  rewrite Hempty.
  unfold when, log, bind, update, emit, read, ret. simpl.
  destruct (default false (trace_ options) && traceOutput (openai s3)); simpl;
    rewrite <- ?app_assoc; simpl; reflexivity.
Qed.
End ClientFacts.

Lemma chatStream_aborted_witness :
  let out := OpenAI.chatStream DemoAI.envs DemoAI.isEmpty
               (DemoAI.ask (Some "r1")) DemoAI.canceledCallback
               DemoAI.server (DemoAI.start "canceled") in
  fst out = Val None
  /\ OpenAI.awaited (trace (snd out)) = 2
  /\ OpenAI.aborts (trace (snd out)) = [7].
Proof.
  intros out. subst out.
  rewrite (chatStream_aborted DemoAI.envs DemoAI.isEmpty
             (DemoAI.ask (Some "r1")) DemoAI.canceledCallback "r1" DemoAI.server
             (DemoAI.start "canceled") DemoAI.greeting DemoAI.opened
             [DemoAI.chunkOf "你"] (DemoAI.chunkOf "好") [DemoAI.chunkOf "！"]
             (fst (fst DemoAI.afterFirst)) (snd (fst DemoAI.afterFirst))
             (snd DemoAI.afterFirst) (now (snd DemoAI.afterFirst))).
  2-9: (vm_compute; reflexivity).
  vm_compute. repeat split; reflexivity.
Defined.

(** The claim of C8 fails on the code when no chunk arrives after the
    removal.  The user speaks again after the first chunk; at the second
    chunk the [onStream] closure cancels the request, so the entry is
    removed while the loop is running; the stream then ends, and
    [chatStream] returns the text gathered so far. *)
Lemma chatStream_cancel_unnoticed :
  let cb := Some (OpenAI.onStream DemoAI.envs "r1" 0) in
  let entry := snd (OpenAI.openStream DemoAI.envs DemoAI.isEmpty
                      (DemoAI.ask (Some "r1")) DemoAI.interrupted
                      (DemoAI.start "idle")) in
  let out := OpenAI.chatStream DemoAI.envs DemoAI.isEmpty
               (DemoAI.ask (Some "r1")) cb DemoAI.interrupted
               (DemoAI.start "idle") in
  OpenAI._abortCallbacks (OpenAI.openai (now entry)) !! "r1"
  = Some (OpenAI.AbortOf 7)
  /\ match OpenAI.consumed (Some "r1") cb 7 (OpenAI.chunks DemoAI.short) "" 0
             DemoAI.interrupted entry with
     | Some (content, n, r2) =>
         content = "你好" /\ n = 2
         /\ OpenAI._abortCallbacks (OpenAI.openai (now r2)) !! "r1" = None
         /\ OpenAI.aborts (trace r2) = [7]
     | None => False
     end
  /\ fst out = Val (Some "你好").
Proof. vm_compute. repeat split; reflexivity. Qed.

(** C5 fails on the code.  The registry is a plain object and [cancel]
    reads it through the prototype chain: with nothing registered,
    [cancel("__proto__")] finds [Object.prototype], which is truthy and
    not a function, so the call throws instead of being a no-op.  The
    loop of [chatStream] tests the same id against the own keys and
    sees no entry. *)
Theorem cancel_prototype_key :
  let before := DemoAI.start "idle" in
  let out := OpenAI.cancel DemoAI.envs "__proto__" DemoAI.server before in
  OpenAI._abortCallbacks (OpenAI.openai (now before)) = ∅
  /\ fst out = Exn "TypeError"
  /\ OpenAI.aborts (trace (snd out)) = []
  /\ OpenAI.isAborted (Some "__proto__") (OpenAI.openai (now (snd out))) = true.
Proof. vm_compute. repeat split; reflexivity. Qed.

(** C4 fails on the code.  [chatStream] registers the callback before
    its loop and deletes it after it, with nothing to catch a failure in
    between: when reading the stream fails, the call rejects and the
    entry stays.  [chat], whose request fails the same way, catches the
    failure and reaches its [delete]. *)
Theorem chatStream_failure_leaks :
  let out := OpenAI.chatStream DemoAI.envs DemoAI.isEmpty
               (DemoAI.ask (Some "r1")) None Scenes.broken
               (DemoAI.start "idle") in
  let sibling := OpenAI.chat DemoAI.envs DemoAI.isEmpty
                   (DemoAI.ask (Some "r1")) DemoAI.down
                   (DemoAI.start "idle") in
  fst out = Exn "socket hang up"
  /\ OpenAI._abortCallbacks (OpenAI.openai (now (snd out))) !! "r1"
     = Some (OpenAI.AbortOf 7)
  /\ fst sibling = Val None
  /\ OpenAI._abortCallbacks (OpenAI.openai (now (snd sibling))) !! "r1" = None.
Proof. vm_compute. repeat split; reflexivity. Qed.

(** * Further properties *)

(** ** The sentences of a word table *)

Section SwitchPrefixMore.
Import SwitchPrefix Observe.

Lemma join_cons (w : string) (l : list string) : join (w :: l) = w +:+ join l.
Proof.
  unfold join. destruct l as [|x l]; simpl; [now rewrite append_nil_r|].
  reflexivity.
Qed.

Lemma spec_sentences_In (groups : list (list string)) (s : string) :
  In s (spec_sentences groups)
  <-> exists choice, Forall2 (fun w g => In w g) choice groups /\ s = join choice.
Proof.
  revert s. induction groups as [|g groups IH]; intros s; simpl.
  - split.
    + intros [<-|[]]. exists []. split; [constructor | reflexivity].
    + intros (choice & Hc & ->). inversion Hc. now left.
  - rewrite in_flat_map. split.
    + intros (w & Hw & Hin). apply in_map_iff in Hin as (t & <- & Ht).
      apply IH in Ht as (choice & Hc & ->).
      exists (w :: choice). split; [now constructor | now rewrite join_cons].
    + intros (choice & Hc & ->). inversion Hc as [|w g' choice' gs Hw Hrest]; subst.
      exists w. split; [assumption|]. apply in_map_iff.
      exists (join choice'). split; [now rewrite join_cons|].
      apply IH. eauto.
Qed.

(** X1. For every word table, the sentences generated are exactly the
    concatenations of one word chosen from each group, in group order:
    nothing else is generated and no choice is left out. *)
Theorem generateSentences_In (groups : list (list string)) (s : string) :
  In s (generateSentences groups)
  <-> exists choice, Forall2 (fun w g => In w g) choice groups /\ s = join choice.
Proof. rewrite generateSentences_spec. apply spec_sentences_In. Qed.

(** X2. The number of sentences generated is the product of the sizes of
    the groups: one sentence (the empty one) for the empty table, none as
    soon as a group is empty. *)
Theorem generateSentences_length (groups : list (list string)) :
  length (generateSentences groups) = sentenceCount groups
  /\ generateSentences [] = [""]
  /\ (In [] groups -> generateSentences groups = []).
Proof.
  rewrite !generateSentences_spec.
  assert (Hlen : forall gs, length (spec_sentences gs) = sentenceCount gs).
  { induction gs as [|g gs IH]; simpl; [reflexivity|].
    rewrite <- IH. clear IH. induction g as [|w g IHg]; simpl; [reflexivity|].
    now rewrite length_app, length_map, IHg. }
  split; [apply Hlen|]. split; [reflexivity|].
  intros Hin. apply length_zero_iff_nil. rewrite Hlen.
  induction groups as [|g gs IH]; simpl in *; [contradiction|].
  destruct Hin as [->|Hin]; [reflexivity|]. rewrite (IH Hin). lia.
Qed.
End SwitchPrefixMore.

Lemma generateSentences_length_witness :
  SwitchPrefix.generateSentences [["a"; "b"]; []; ["c"]] = [].
Proof.
  apply (proj2 (proj2 (generateSentences_length [["a"; "b"]; []; ["c"]]))).
  right. left. reflexivity.
Defined.

(** ** Commands and keep-alive *)

Lemma substring_append (e rest : string) :
  substring (String.length e) (String.length (e +:+ rest) - String.length e)
            (e +:+ rest) = rest.
Proof.
  induction e as [|c e IH].
  - change ("" +:+ rest) with rest. simpl. rewrite Nat.sub_0_r.
    clear. induction rest as [|c rest IH]; simpl; [reflexivity | now rewrite IH].
  - rewrite append_cons. simpl. exact IH.
Qed.

Lemma replaceFirst_unfold (s pat rep : string) :
  Speaker.replaceFirst s pat rep =
  if String.prefix pat s then
    rep +:+ substring (String.length pat) (String.length s - String.length pat) s
  else
    match s with
    | EmptyString => EmptyString
    | String c s' => String c (Speaker.replaceFirst s' pat rep)
    end.
Proof. destruct s; reflexivity. Qed.

(** Removing a prefix with [replace(prefix, "")] leaves the rest. *)
Lemma replaceFirst_prefix (e rest : string) :
  Speaker.replaceFirst (e +:+ rest) e "" = rest.
Proof.
  rewrite replaceFirst_unfold.
  assert (Hp : String.prefix e (e +:+ rest) = true).
  { apply (startsWith_prefix (e +:+ rest) e). now exists rest. }
  rewrite Hp. change ("" +:+ ?x) with x. apply substring_append.
Qed.

Section SpeakerMore.
Import Speaker Observe.
Context {W : Type} `{SpeakerBase W}.
Variable self : AISpeaker.
Variable _commands : list (@SpeakerCommand W).
Implicit Types (h : Handler Event W) (r : Run Event W).

Ltac exec :=
  unfold issued, log, response, pickOne, ifText, call, bind, trigger, emit,
    read, ret, settle, throw; simpl.

(** Bring the trace of a finished run to the form [trace r ++ new]. *)
Ltac settle_trace := rewrite <- ?app_assoc, ?drop_app_length, ?drop_all; simpl.

(** X3. When the voice-switch command runs on a text that starts with
    one of its keywords, [switchSpeaker] is given the text without the
    first such keyword of the list; the result is then reported by a
    second response that carries the current [keepAlive].  If the first
    response rejects, no switch is attempted; if the switch rejects,
    nothing is reported. *)
Theorem switchCommand_run msg h r e :
  find_first (fun e => startsWith (text msg) e) (switchSpeakerKeywords self)
  = Some e ->
  exists rest,
    text msg = e +:+ rest
    /\ let wait := say "正在切换音色，请稍等..." in
       let out := issued (run (switchCommand self) msg) h r in
       match h _ (Response wait) (now r) with
       | (Exn _, _) => switched out = [] /\ responses out = [wait]
       | (Val _, s1) =>
           switched out = [rest]
           /\ match h _ (SwitchSpeaker rest) s1 with
              | (Exn _, _) => responses out = [wait]
              | (Val ok, s2) =>
                  responses out
                  = [wait;
                     mkOpts (Some (if ok then "音色已切换！" else "音色切换失败！"))
                            None None (Some (keepAlive s2)) None]
              end
       end.
Proof.
  intros Hfind. unfold find_first in Hfind.
  destruct (find_some _ _ Hfind) as [_ Hpre].
  apply startsWith_prefix in Hpre as [rest Hrest].
  exists rest. split; [exact Hrest|].
  unfold switchCommand; simpl. unfold find_first. rewrite Hfind. simpl.
  rewrite Hrest, replaceFirst_prefix. exec.
  destruct (h _ (Response _) (now r)) as [[v|err] s1]; simpl.
  - destruct (h _ (SwitchSpeaker rest) s1) as [[ok|err] s2]; simpl.
    + destruct (h _ (Response _) s2) as [[v'|err] s3]; simpl;
        settle_trace; split; reflexivity.
    + settle_trace. split; reflexivity.
  - settle_trace. split; reflexivity.
Qed.

(** X4. The wake and exit commands never match the same utterance in
    the same state.  In keep-alive mode the fallback matches every
    utterance, so the list always has a matching command; out of
    keep-alive, an utterance that starts with no wake, switch or call
    keyword and that no registered command matches is matched by
    nothing. *)
Theorem commands_coverage msg w :
  (cmd_match (wakeCommand self) msg w && cmd_match (exitCommand self) msg w
   = false)
  /\ (keepAlive w = true ->
      existsb (fun c => cmd_match c msg w) (commands self _commands) = true)
  /\ (keepAlive w = false ->
      some (fun e => startsWith (text msg) e) (wakeUpKeywords self) = false ->
      some (fun e => startsWith (text msg) e) (switchSpeakerKeywords self) = false ->
      some (fun e => startsWith (text msg) e) (callAIKeywords self) = false ->
      existsb (fun c => cmd_match c msg w) _commands = false ->
      existsb (fun c => cmd_match c msg w) (commands self _commands) = false).
Proof.
  split; [|split].
  - simpl. destruct (keepAlive w); simpl; [reflexivity|].
    now rewrite andb_false_r.
  - intros Hka. unfold commands. rewrite !existsb_app. simpl.
    rewrite Hka. simpl. now rewrite !orb_true_r.
  - intros Hka Hw Hs Hc Hcustom. unfold commands. rewrite !existsb_app. simpl.
    now rewrite Hka, Hw, Hs, Hc, Hcustom.
Qed.

(** X5. With [streamResponse] on, [enterKeepAlive] speaks the picked
    enter phrase with [keepAlive: true] and then invokes the base-class
    [enterKeepAlive] exactly once; keep-alive is not entered when that
    response rejects. *)
Theorem enterKeepAlive_on h r :
  streamResponse (now r) = true ->
  let pick := h _ (PickOne (onEnterAI self)) (now r) in
  let greet := fun t => mkOpts (Some t) None None (Some true) None in
  let out := issued (enterKeepAlive self) h r in
  responses out = phraseSpoken (fst pick) greet
  /\ superEnters out
     = match phraseSpoken (fst pick) greet with
       | o :: _ =>
           match fst (h _ (Response o) (snd pick)) with
           | Val _ => 1
           | Exn _ => 0
           end
       | [] => 1
       end.
Proof.
  intros Hs. unfold enterKeepAlive. exec. rewrite Hs. simpl.
  destruct (h _ (PickOne _) (now r)) as [[t|] s1]; simpl.
  - destruct (truthy t); simpl.
    + destruct (h _ (Response _) s1) as [[v|err] s2]; simpl.
      * destruct (h _ SuperEnterKeepAlive s2) as [[[]|err] s3]; simpl;
          settle_trace; split; reflexivity.
      * settle_trace. split; reflexivity.
    + destruct (h _ SuperEnterKeepAlive s1) as [[[]|err] s3]; simpl;
        settle_trace; split; reflexivity.
  - destruct (h _ SuperEnterKeepAlive s1) as [[[]|err] s3]; simpl;
      settle_trace; split; reflexivity.
Qed.

(** X6. [exitKeepAlive] leaves keep-alive through the base class first:
    when that call rejects, nothing is spoken and the device is not put
    to sleep.  Otherwise the picked exit phrase is spoken with
    [keepAlive: false] and [playSFX: false], and [unWakeUp] is called
    once unless that response rejects. *)
Theorem exitKeepAlive_order h r :
  let bye := fun t => mkOpts (Some t) None None (Some false) (Some false) in
  let out := issued (exitKeepAlive self) h r in
  superExits out = 1
  /\ match h _ SuperExitKeepAlive (now r) with
     | (Exn err, s) =>
         exitKeepAlive self h r
         = (Exn err, mkRun s (trace r ++ [Called SuperExitKeepAlive]))
     | (Val _, s1) =>
         let pick := h _ (PickOne (onExitAI self)) s1 in
         responses out = phraseSpoken (fst pick) bye
         /\ unWakeUps out
            = match phraseSpoken (fst pick) bye with
              | o :: _ =>
                  match fst (h _ (Response o) (snd pick)) with
                  | Val _ => 1
                  | Exn _ => 0
                  end
              | [] => 1
              end
     end.
Proof.
  unfold exitKeepAlive. exec.
  destruct (h _ SuperExitKeepAlive (now r)) as [[[]|err] s1]; simpl.
  - destruct (h _ (PickOne _) s1) as [[t|] s2]; simpl.
    + destruct (truthy t); simpl.
      * destruct (h _ (Response _) s2) as [[v|err] s3]; simpl.
        -- destruct (h _ UnWakeUp s3) as [[[]|err] s4]; simpl;
             settle_trace; repeat split; reflexivity.
        -- settle_trace. repeat split; reflexivity.
      * destruct (h _ UnWakeUp s2) as [[[]|err] s4]; simpl;
          settle_trace; repeat split; reflexivity.
    + destruct (h _ UnWakeUp s2) as [[[]|err] s4]; simpl;
        settle_trace; repeat split; reflexivity.
  - settle_trace. split; reflexivity.
Qed.
End SpeakerMore.

(** ** Traces only grow *)

Section Extends.
Context {E : Type -> Type} {S : Type}.
Implicit Types (h : Handler E S) (r : Run E S).

Lemma extends_ret {A} (a : A) : extends (E:=E) (S:=S) (ret a).
Proof. intros h r. exists []. simpl. now rewrite app_nil_r. Qed.

Lemma extends_throw {A} (err : string) : extends (E:=E) (S:=S) (A:=A) (throw err).
Proof. intros h r. exists []. simpl. now rewrite app_nil_r. Qed.

Lemma extends_read {A} (f : S -> A) : extends (E:=E) (read f).
Proof. intros h r. exists []. simpl. now rewrite app_nil_r. Qed.

Lemma extends_update (f : S -> S) : extends (E:=E) (update f).
Proof. intros h r. exists []. simpl. now rewrite app_nil_r. Qed.

Lemma extends_emit (e : E unit) : extends (S:=S) (emit e).
Proof. intros h r. now exists [Called e]. Qed.

Lemma extends_trigger {X} (e : E X) : extends (S:=S) (trigger e).
Proof.
  intros h r. exists [Called e]. unfold trigger.
  now destruct (h X e (now r)).
Qed.

Lemma extends_bind {A B} (c : Prog E S A) (k : A -> Prog E S B) :
  extends c -> (forall a, extends (k a)) -> extends (bind c k).
Proof.
  intros Hc Hk h r. unfold bind. destruct (Hc h r) as [l Hl].
  destruct (c h r) as [[a|err] r1]; simpl in *.
  - destruct (Hk a h r1) as [l' Hl']. exists (l ++ l')%list.
    now rewrite Hl', Hl, app_assoc.
  - now exists l.
Qed.

Lemma extends_catch {A} (c : Prog E S A) (k : string -> Prog E S A) :
  extends c -> (forall err, extends (k err)) -> extends (catch c k).
Proof.
  intros Hc Hk h r. unfold catch. destruct (Hc h r) as [l Hl].
  destruct (c h r) as [[a|err] r1]; simpl in *.
  - now exists l.
  - destruct (Hk err h r1) as [l' Hl']. exists (l ++ l')%list.
    now rewrite Hl', Hl, app_assoc.
Qed.

Lemma extends_call {X} (e : E (Outcome X)) : extends (S:=S) (call e).
Proof.
  apply extends_bind; [apply extends_trigger|].
  intros [x|err]; [apply extends_ret | apply extends_throw].
Qed.

Lemma extends_when (b : bool) (c : Prog E S unit) :
  extends c -> extends (when b c).
Proof. intros Hc. destruct b; [exact Hc | apply extends_ret]. Qed.

(** The trace after a run is the trace before it and what was issued. *)
Lemma issued_extends {A} (c : Prog E S A) h r :
  extends c -> trace (snd (c h r)) = (trace r ++ issued c h r)%list.
Proof.
  intros Hc. unfold issued. destruct (Hc h r) as [l Hl].
  now rewrite Hl, drop_app_length.
Qed.

Lemma issued_bind {A B} (c : Prog E S A) (k : A -> Prog E S B) h r :
  extends c -> (forall a, extends (k a)) ->
  issued (bind c k) h r
  = (issued c h r ++
     match c h r with
     | (Val a, r') => issued (k a) h r'
     | (Exn _, _) => []
     end)%list.
Proof.
  intros Hc Hk. unfold issued at 1. unfold bind.
  pose proof (issued_extends c h r Hc) as Hl.
  destruct (c h r) as [[a|err] r1]; simpl in *.
  - rewrite (issued_extends (k a) h r1 (Hk a)), Hl, <- app_assoc.
    now rewrite drop_app_length.
  - now rewrite Hl, drop_app_length, app_nil_r.
Qed.
End Extends.

Create HintDb extends.
#[local] Hint Resolve extends_ret extends_throw extends_read extends_update
  extends_emit extends_trigger extends_call extends_when : extends.

(** Programs written with the combinators above only append. *)
Ltac grows :=
  repeat first
    [ solve [eauto with extends]
    | apply extends_bind; [|intros ?]
    | apply extends_catch; [|intros ?]
    | match goal with
      | |- extends (match ?x with _ => _ end) => destruct x
      | |- extends (if ?b then _ else _) => destruct b
      end ].

(** ** The pipeline without an answer *)

Section PipelineMore.
Import Speaker Observe.
Context {W : Type} `{SpeakerBase W}.
Variable self : AISpeaker.
Implicit Types (h : Handler Event W) (r : Run Event W).

Lemma steps_extend (action : AnswerStep) msg data :
  In action (_askAIForAnswerSteps self) -> extends (action msg data).
Proof.
  simpl. intros [<-|[<-|[<-|[<-|[<-|[<-|[]]]]]]];
    unfold step_thinking, step_askAI, step_play, step_replied, step_error,
      step_rewake, log, response, pickOne, ifText; grows.
Qed.

Lemma turn_extends (action : AnswerStep) msg hasNewMsg data :
  extends (action msg data) -> extends (turn action msg hasNewMsg data).
Proof. intros Ha. unfold turn, log. grows. Qed.

Lemma runSteps_extends steps msg hasNewMsg :
  (forall (a : AnswerStep) d, In a steps -> extends (a msg d)) ->
  forall data, extends (runSteps steps msg hasNewMsg data).
Proof.
  induction steps as [|a steps IH]; intros Hall data; simpl.
  - grows.
  - apply extends_bind.
    + apply turn_extends, Hall. now left.
    + intros [ |d|d]; grows. apply IH. intros a' d' Hin. apply Hall. now right.
Qed.

Lemma responses_app (l l' : list (Call Event)) :
  responses (l ++ l') = (responses l ++ responses l')%list.
Proof. apply flat_map_app. Qed.

(** The check and its log line add no response to what the step did. *)
Lemma turn_responses (action : AnswerStep) msg hasNewMsg data h r :
  extends (action msg data) ->
  responses (issued (turn action msg hasNewMsg data) h r)
  = responses (issued (action msg data) h r).
Proof.
  intros Ha. unfold turn. rewrite issued_bind; [|exact Ha|intros; unfold log; grows].
  rewrite responses_app.
  destruct (action msg data h r) as [[res|err] r1]; simpl;
    [|now rewrite app_nil_r].
  unfold issued, bind, read, log, emit, ret; simpl.
  destruct (superseded hasNewMsg (now r1)); simpl.
  - now rewrite drop_app_length, app_nil_r.
  - destruct (wantsStop res); simpl; now rewrite drop_all, app_nil_r.
Qed.

Lemma runSteps_responses (a : AnswerStep) steps msg hasNewMsg data h r :
  (forall (a' : AnswerStep) d, In a' (a :: steps) -> extends (a' msg d)) ->
  responses (issued (runSteps (a :: steps) msg hasNewMsg data) h r)
  = (responses (issued (a msg data) h r) ++
     match turn a msg hasNewMsg data h r with
     | (Val (Next d), r') =>
         responses (issued (runSteps steps msg hasNewMsg d) h r')
     | _ => []
     end)%list.
Proof.
  intros Hall. simpl runSteps. rewrite issued_bind.
  - rewrite responses_app, turn_responses by (apply Hall; now left).
    f_equal.
    destruct (turn a msg hasNewMsg data h r) as [[[ |d|d]|err] r1]; try reflexivity.
    + unfold issued, ret. simpl. now rewrite drop_all.
    + unfold issued, ret. simpl. now rewrite drop_all.
  - apply turn_extends, Hall. now left.
  - intros [ |d|d]; grows. apply runSteps_extends.
    intros a' d' Hin. apply Hall. now right.
Qed.

(** The turn of a step that does nothing. *)
Lemma turn_idle (action : AnswerStep) msg hasNewMsg data h r :
  action msg data h r = (Val None, r) ->
  turn action msg hasNewMsg data h r
  = if superseded hasNewMsg (now r)
    then (Val Return_, mkRun (now r) (trace r ++ [interruptLine]))
    else (Val (Next data), r).
Proof.
  intros Ha. unfold turn. rewrite (bind_val _ _ _ _ _ _ Ha), bind_read.
  now destruct (superseded hasNewMsg (now r)).
Qed.

Lemma step_play_quiet msg data h r :
  quietBag data -> step_play msg data h r = (Val None, r).
Proof. intros [Ha _]. unfold step_play. now rewrite Ha. Qed.

Lemma step_replied_quiet msg data h r :
  quietBag data -> step_replied self msg data h r = (Val None, r).
Proof.
  intros [Ha _]. unfold step_replied, bind, read, ret. simpl. now rewrite Ha.
Qed.

Lemma step_error_quiet msg data h r :
  quietBag data -> step_error self msg data h r = (Val None, r).
Proof.
  intros [_ He]. unfold step_error, bind, ret. simpl. now rewrite He.
Qed.

(** A step that does nothing hands the run on unchanged. *)
Lemma idle_step (a : AnswerStep) steps msg hasNewMsg data h r :
  (forall (a' : AnswerStep) d, In a' (a :: steps) -> extends (a' msg d)) ->
  a msg data h r = (Val None, r) ->
  responses (issued (runSteps (a :: steps) msg hasNewMsg data) h r)
  = if superseded hasNewMsg (now r) then []
    else responses (issued (runSteps steps msg hasNewMsg data) h r).
Proof.
  intros Hall Ha. rewrite runSteps_responses by exact Hall.
  rewrite (turn_idle _ _ _ _ _ _ Ha).
  unfold issued at 1. rewrite Ha, drop_all.
  now destruct (superseded hasNewMsg (now r)).
Qed.

Lemma quiet_tail msg hasNewMsg data h r :
  quietBag data ->
  responses (issued (runSteps [step_play; step_replied self; step_error self;
                               step_rewake] msg hasNewMsg data) h r) = [].
Proof.
  intros Hq.
  assert (Hall : forall (a : AnswerStep) d,
             In a [step_play; step_replied self; step_error self; step_rewake] ->
             extends (a msg d)).
  { intros a d Hin. apply steps_extend. simpl in *. tauto. }
  rewrite idle_step;
    [|exact Hall|exact (step_play_quiet msg data h r Hq)].
  rewrite idle_step;
    [|intros a d Hin; apply Hall; simpl in *; tauto
     |exact (step_replied_quiet msg data h r Hq)].
  rewrite idle_step;
    [|intros a d Hin; apply Hall; simpl in *; tauto
     |exact (step_error_quiet msg data h r Hq)].
  rewrite runSteps_responses by (intros a d Hin; apply Hall; simpl in *; tauto).
  rewrite (proj2 (step_rewake_spec msg data h r)).
  destruct (turn step_rewake msg hasNewMsg data h r) as [[[ |d|d]|err] r1];
    unfold issued, ret; simpl; rewrite ?drop_all;
    destruct (superseded hasNewMsg (now r)); reflexivity.
Qed.

Lemma turn_next (action : AnswerStep) msg hasNewMsg data h r d r' :
  turn action msg hasNewMsg data h r = (Val (Next d), r') ->
  exists res, action msg data h r = (Val res, r') /\ d = merge data res.
Proof.
  unfold turn, bind, read, log, emit, ret. simpl.
  destruct (action msg data h r) as [[res|err] r1]; [|discriminate].
  destruct (superseded hasNewMsg (now r1)); [discriminate|].
  destruct (wantsStop res); [discriminate|].
  intros [= <- <-]. now exists res.
Qed.

Lemma step_thinking_void msg data h r res r' :
  step_thinking self msg data h r = (Val res, r') -> res = None.
Proof.
  unfold step_thinking, pickOne, ifText, response, log, call, bind, trigger,
    emit, ret, settle, throw. simpl.
  destruct (h _ (PickOne _) (now r)) as [[t|] s1]; simpl.
  - destruct (truthy t); simpl.
    + destruct (h _ (Response _) s1) as [[v|err] s2]; simpl; congruence.
    + congruence.
  - congruence.
Qed.

(** X7. When the model gives no answer ([askAI] is not set, or resolves
    to a falsy value), the pipeline plays nothing: whatever else happens
    during the run, the only response it can make is the thinking
    phrase. *)
Theorem no_answer_no_playback msg h r :
  (forall f s, askAI self = Some f ->
     match fst (h _ (CallAskAI f msg) s) with
     | Val v => truthyV v = false
     | Exn _ => True
     end) ->
  responses (issued (askAIForAnswer self msg) h r)
  = phraseSpoken (fst (h _ (PickOne (onAIAsking self)) (now r)))
      (fun t => mkOpts (Some t) None (audioActive self) None None).
Proof.
  intros Hsilent.
  assert (Hall : forall (a : AnswerStep) d,
             In a (_askAIForAnswerSteps self) -> extends (a msg d)).
  { intros a d Hin. now apply steps_extend. }
  set (hasNewMsg := checkIfHasNewMsg msg (now r)).
  assert (Hloop :
    responses (issued (runSteps (_askAIForAnswerSteps self) msg hasNewMsg ∅)
                      h (started msg r))
    = phraseSpoken (fst (h _ (PickOne (onAIAsking self)) (now r)))
        (fun t => mkOpts (Some t) None (audioActive self) None None)).
  { unfold _askAIForAnswerSteps.
    rewrite runSteps_responses by exact Hall.
    rewrite step_thinking_responses. simpl now.
    rewrite <- (app_nil_r (phraseSpoken _ _)) at 2. f_equal.
    destruct (turn (step_thinking self) msg hasNewMsg ∅ h (started msg r))
      as [[[ |d|d]|err] r1] eqn:Hturn; try reflexivity.
    apply turn_next in Hturn as (res & Hstep & ->).
    apply step_thinking_void in Hstep as ->. simpl merge.
    rewrite runSteps_responses
      by (intros a d Hin; apply Hall; simpl in *; tauto).
    destruct (step_askAI_spec self msg ∅ h r1) as (_ & Hnone & Hres).
    rewrite Hnone. simpl.
    destruct (turn (step_askAI self) msg hasNewMsg ∅ h r1)
      as [[[ |d|d]|err] r2] eqn:Hturn; try reflexivity.
    apply turn_next in Hturn as (res & Hstep & ->).
    destruct (Hres _ _ Hstep) as (answer & -> & Hfield & Hans).
    apply quiet_tail. split.
    - rewrite Hfield. destruct (askAI self) as [f|] eqn:Hf.
      + specialize (Hsilent f (now r1) eq_refl). now rewrite Hans in Hsilent.
      + now subst answer.
    - unfold field, merge. rewrite lookup_union.
      rewrite lookup_singleton_ne by discriminate.
      now rewrite lookup_empty. }
  assert (Hext : extends (runSteps (_askAIForAnswerSteps self) msg hasNewMsg ∅)).
  { apply runSteps_extends. intros a d Hin. now apply steps_extend. }
  pose proof (issued_extends _ h (started msg r) Hext) as Htrace.
  rewrite <- Hloop. clear Hloop.
  remember (issued (runSteps (_askAIForAnswerSteps self) msg hasNewMsg ∅)
                   h (started msg r)) as new eqn:Hnew. clear Hnew.
  unfold issued, askAIForAnswer. rewrite askAIForAnswerOver_eq. fold hasNewMsg.
  destruct (runSteps _ _ _ _ _ _) as [[[d|]|err] r1]; simpl in *;
    rewrite Htrace, <- ?app_assoc, drop_app_length; simpl;
    rewrite ?responses_app; simpl; now rewrite ?app_nil_r.
Qed.

(** X8. The done phrase and the error phrase exclude each other: on one
    and the same bag, when the done step speaks, the error step is
    silent. *)
Theorem done_excludes_error msg data h r h' r' :
  responses (issued (step_replied self msg data) h r) <> [] ->
  responses (issued (step_error self msg data) h' r') = [].
Proof.
  rewrite step_replied_responses, step_error_responses.
  destruct (field "res" data) as [ | |s|a]; simpl;
    rewrite ?andb_false_r; simpl; try congruence; reflexivity.
Qed.

(** X9. A step that asks to stop ends the loop without ending the run
    early: when the run is not superseded after it, the later steps are
    not executed and the last line is logged, in the state that step
    left. *)
Theorem askAIForAnswerOver_stop (pre post : list AnswerStep)
    (action : AnswerStep) msg h r data r1 d r2 :
  reached pre msg (checkIfHasNewMsg msg (now r)) ∅ h (started msg r)
  = Some (data, r1) ->
  action msg data h r1 = (Val (Some (mkStep true d)), r2) ->
  superseded (checkIfHasNewMsg msg (now r)) (now r2) = false ->
  askAIForAnswerOver (pre ++ action :: post) msg h r
  = (Val tt, mkRun (now r2) (trace r2 ++ [doneLine])).
Proof.
  intros Hreach Hact Hsup. rewrite askAIForAnswerOver_eq.
  rewrite (runSteps_reached _ _ _ _ _ _ _ _ _ Hreach). simpl.
  unfold bind at 1. unfold turn.
  rewrite (bind_val _ _ _ _ _ _ Hact), bind_read, Hsup. reflexivity.
Qed.
End PipelineMore.

(** ** The client: initialisation, cancellation, requests *)

Section ClientMore.
Import OpenAI Observe.
Context {W : Type} `{StreamState W}.
Variable kEnvs : Envs.
Variable isEmpty : string -> bool.
Implicit Types (h : Handler Event (Sys W)) (r : Run Event (Sys W)).

Ltac crack H :=
  repeat match type of H with
         | context [match ?x with _ => _ end] =>
             lazymatch x with
             | context [match _ with _ => _ end] => fail
             | _ => destruct x eqn:?; simpl in H
             end
         end.

Ltac crack_goal :=
  repeat match goal with
         | |- context [match ?x with _ => _ end] =>
             lazymatch x with
             | context [match _ with _ => _ end] => fail
             | _ => destruct x eqn:?; simpl
             end
         end.

Ltac settle_trace := rewrite <- ?app_assoc, ?drop_app_length, ?drop_all; simpl.

#[local] Arguments initialised : simpl never.

Lemma initialised_client (c : OpenAIClient) :
  _client (initialised kEnvs c) <> None
  /\ (forall cl, _client c = Some cl -> _client (initialised kEnvs c) = Some cl).
Proof.
  unfold initialised; simpl. destruct (_client c) as [cl|] eqn:Hc; simpl.
  - rewrite Hc. split; [discriminate | now intros cl' [= <-]].
  - split; [discriminate | discriminate].
Qed.

Lemma initialised_idempotent (c : OpenAIClient) :
  initialised kEnvs (initialised kEnvs c) = initialised kEnvs c.
Proof.
  destruct c as [ti to d [cl|] reg proto]; unfold initialised; simpl; reflexivity.
Qed.

(** X10. [_init] is lazy and idempotent: it issues no call, leaves the
    abort registry and everything outside the client alone, always
    leaves a client in place, keeps a client that is already there, and
    running it twice is the same as running it once. *)
Theorem init_idempotent h r :
  let after := now (snd (_init kEnvs h r)) in
  bind (_init kEnvs) (fun _ => _init kEnvs) h r = _init kEnvs h r
  /\ issued (_init kEnvs) h r = []
  /\ _abortCallbacks (openai after) = _abortCallbacks (openai (now r))
  /\ _client (openai after) <> None
  /\ (forall cl, _client (openai (now r)) = Some cl ->
        _client (openai after) = Some cl)
  /\ outside after = outside (now r).
Proof.
  intros after. subst after.
  rewrite (bind_val _ _ _ _ _ _ (_init_eq kEnvs h r)).
  unfold issued. rewrite !_init_eq. unfold onClient. simpl.
  rewrite initialised_idempotent, drop_all, initialised_callbacks.
  repeat split; try apply initialised_client.
Qed.

Lemma initialised_setCallbacks f (c : OpenAIClient) :
  initialised kEnvs (setCallbacks f c) = setCallbacks f (initialised kEnvs c).
Proof.
  destruct c as [ti to d [cl|] reg proto]; unfold initialised; simpl; reflexivity.
Qed.

(** X11. For a request id that names nothing on the prototype chain of
    the registry, cancelling twice is cancelling once: the second
    [cancel] finds no callback, so the callback is invoked at most once
    over both calls and the process ends in the state the first call
    left.  Entries of other request ids are never touched. *)
Theorem cancel_twice requestId h r :
  inherited (_abortCallbacks_proto (openai (now r))) requestId = PUndefined ->
  let once := cancel kEnvs requestId h r in
  let twice := bind (cancel kEnvs requestId)
                    (fun _ => cancel kEnvs requestId) h r in
  fst twice = Val tt
  /\ now (snd twice) = now (snd once)
  /\ trace (snd twice) = trace (snd once)
  /\ aborts (drop (length (trace r)) (trace (snd twice)))
     = match _abortCallbacks (openai (now r)) !! requestId with
       | Some (AbortOf c) => [c]
       | None => []
       end
  /\ (forall other, other <> requestId ->
        _abortCallbacks (openai (now (snd once))) !! other
        = _abortCallbacks (openai (now r)) !! other).
Proof.
  intros Hplain once twice. subst once twice. unfold issued.
  destruct (_abortCallbacks (openai (now r)) !! requestId) as [[c]|] eqn:Hreg.
  - assert (Hp : property (openai (now r)) requestId = PCallback (AbortOf c))
      by (unfold property; now rewrite Hreg).
    rewrite (bind_val _ _ _ _ _ _ (cancel_callback kEnvs requestId c h r Hp)).
    rewrite (cancel_callback kEnvs requestId c h r Hp).
    rewrite cancel_unknown.
    2:{ unfold property, onClient; simpl.
        rewrite lookup_delete_eq, initialised_proto. exact Hplain. }
    simpl. rewrite drop_app_length.
    split; [reflexivity|]. split.
    { unfold onClient; simpl.
      now rewrite initialised_setCallbacks, initialised_idempotent. }
    split; [reflexivity|]. split; [reflexivity|].
    intros other Hne. rewrite initialised_callbacks. now apply lookup_delete_ne.
  - assert (Hnone : property (openai (now r)) requestId = PUndefined)
      by (unfold property; now rewrite Hreg).
    rewrite (bind_val _ _ _ _ _ _ (cancel_unknown kEnvs requestId h r Hnone)).
    rewrite (cancel_unknown kEnvs requestId h r Hnone).
    rewrite cancel_unknown.
    2:{ unfold onClient; simpl. now rewrite property_initialised. }
    simpl. rewrite drop_all.
    split; [reflexivity|]. split.
    { unfold onClient; simpl. now rewrite initialised_idempotent. }
    split; [reflexivity|]. split; [reflexivity|].
    intros other _. now rewrite initialised_callbacks.
Qed.

(** X24. For a request id that names nothing on the prototype chain of
    the registry, [cancel] returns normally: a registered callback is
    invoked exactly once and its entry deleted, without one nothing is
    invoked and the registry is left as it is; no other entry changes
    and what is outside the client is untouched. *)
Theorem cancel_plain requestId h r :
  inherited (_abortCallbacks_proto (openai (now r))) requestId = PUndefined ->
  let after := snd (cancel kEnvs requestId h r) in
  fst (cancel kEnvs requestId h r) = Val tt
  /\ aborts (issued (cancel kEnvs requestId) h r)
     = match _abortCallbacks (openai (now r)) !! requestId with
       | Some (AbortOf c) => [c]
       | None => []
       end
  /\ _abortCallbacks (openai (now after))
     = delete requestId (_abortCallbacks (openai (now r)))
  /\ (_abortCallbacks (openai (now r)) !! requestId = None ->
      issued (cancel kEnvs requestId) h r = [])
  /\ outside (now after) = outside (now r).
Proof.
  intros Hplain after. subst after. unfold issued.
  destruct (_abortCallbacks (openai (now r)) !! requestId) as [[c]|] eqn:Hreg.
  - assert (Hp : property (openai (now r)) requestId = PCallback (AbortOf c))
      by (unfold property; now rewrite Hreg).
    rewrite (cancel_callback kEnvs requestId c h r Hp). simpl.
    rewrite drop_app_length, initialised_callbacks.
    repeat split. discriminate.
  - assert (Hnone : property (openai (now r)) requestId = PUndefined)
      by (unfold property; now rewrite Hreg).
    rewrite (cancel_unknown kEnvs requestId h r Hnone). simpl.
    rewrite drop_all, initialised_callbacks.
    split; [reflexivity|]. split; [reflexivity|].
    split; [symmetry; now apply delete_id|]. split; reflexivity.
Qed.

(** X25. Whenever [chat] returns, and whenever [chatStream] returns
    after it obtained a stream, the registry holds no own entry for the
    request id: both delete it on their way out. *)
Theorem returned_unregistered options onStream id h r :
  requestId options = Some id -> truthy id = true ->
  (forall m r',
      chat kEnvs isEmpty options h r = (Val m, r') -> unregistered id (now r'))
  /\ (forall s r1 a r',
        openStream kEnvs isEmpty options h r = (Val (Some s), r1) ->
        chatStream kEnvs isEmpty options onStream h r = (Val a, r') ->
        unregistered id (now r')).
Proof.
  intros Hid Ht. split.
  - intros m r' Hrun. exact (chat_unregistered _ _ _ _ _ _ _ _ Hid Ht Hrun).
  - intros s r1 a r' Hopen Hrun. unfold chatStream in Hrun.
    rewrite (bind_val _ _ _ _ _ _ Hopen) in Hrun. unfold bind at 1 in Hrun.
    destruct (consume _ _ _ _ _ _ h r1) as [[res|err] r2]; [|discriminate].
    rewrite (closeStream_unregistered _ _ _ _ _ _ _ _ Hid Ht Hrun).
    apply lookup_delete_eq.
Qed.

Ltac run_chat H :=
  unfold chat, ifId, register in H;
  rewrite (bind_val _ _ _ _ _ _ (_init_eq kEnvs _ _)) in H;
  unfold theClient, call, when, log, logError in H;
  unfold bind, catch, read, emit, trigger, update, ret, settle, throw in H;
  simpl in H.

(** What the handler answered to the [create] of a cracked run. *)
Ltac answered Hall :=
  match goal with
  | Hh : ?h ?X (Create ?cl ?req ?sg) ?s = _ |- _ =>
      let Hd := fresh "Hd" in
      pose proof (Hall cl req sg s) as Hd; rewrite Hh in Hd; simpl in Hd
  end.

(** X12. [chat] absorbs a rejected completion: against a server that
    rejects the request, the error is logged once and [chat] returns
    [undefined]; against one that answers, the first choice's message
    is returned and no error is logged.  The only exception left is a
    [TypeError], and only for a request with an id, where the
    construction of the [AbortController] and the registration stand
    between [_init] and the call: without an id [chat] always
    returns. *)
Theorem chat_never_rejects options h r :
  (forall err r',
      chat kEnvs isEmpty options h r = (Exn err, r') ->
      err = "TypeError" /\ truthy_opt (requestId options) = true)
  /\ (truthy_opt (requestId options) = false ->
      exists m r', chat kEnvs isEmpty options h r = (Val m, r'))
  /\ (forall err,
        (forall cl req sg s, fst (h _ (Create cl req sg) s) = Exn err) ->
        forall m r',
          chat kEnvs isEmpty options h r = (Val m, r') ->
          m = None
          /\ llmErrors (issued (chat kEnvs isEmpty options) h r) = [err])
  /\ (forall c,
        (forall cl req sg s, fst (h _ (Create cl req sg) s) = Val c) ->
        forall m r',
          chat kEnvs isEmpty options h r = (Val m, r') ->
          m = firstMessage (Some c)
          /\ llmErrors (issued (chat kEnvs isEmpty options) h r) = []).
Proof.
  assert (Hthrows : forall err r',
             chat kEnvs isEmpty options h r = (Exn err, r') ->
             err = "TypeError" /\ truthy_opt (requestId options) = true).
  { intros err r' Hrun. run_chat Hrun.
    destruct (requestId options) as [id|] eqn:Hid; simpl in Hrun.
    + destruct (truthy id) eqn:Ht; simpl in Hrun.
      * crack Hrun; try discriminate; inversion Hrun; subst; now split.
      * pose proof (proj1 (initialised_client (openai (now r)))) as Hcl.
        crack Hrun; try discriminate; try congruence.
    + pose proof (proj1 (initialised_client (openai (now r)))) as Hcl.
      crack Hrun; try discriminate; try congruence. }
  split; [exact Hthrows|]. split; [|split].
  - intros Hid.
    destruct (chat kEnvs isEmpty options h r) as [[m|err] r'] eqn:Hrun.
    + now exists m, r'.
    + destruct (Hthrows err r' eq_refl) as [_ Ht]. congruence.
  - intros err Hdown m r' Hrun. unfold issued. rewrite Hrun. simpl.
    run_chat Hrun.
    crack Hrun; try discriminate; inversion Hrun; subst; simpl in *;
      answered Hdown; try discriminate; inversion Hd; subst;
      settle_trace; split; reflexivity.
  - intros c Hup m r' Hrun. unfold issued. rewrite Hrun. simpl.
    run_chat Hrun.
    crack Hrun; try discriminate; inversion Hrun; subst; simpl in *;
      answered Hup; try discriminate; inversion Hd; subst;
      settle_trace;
      repeat match goal with
             | Hc : cc_choices _ = _ |- _ => rewrite Hc; clear Hc
             end;
      split; reflexivity.
Qed.

(** X13. [chat] can be cancelled exactly when it is given a non-empty
    request id.  Then it constructs one [AbortController] and assigns
    its abort under the id; if that assignment throws, so does [chat],
    before any request.  Otherwise the request is made with the
    controller's signal in the state the assignment left, in which
    [cancel] of the id aborts that very controller, and the entry is
    deleted from the state the request left.  Without an id nothing is
    constructed and no signal is passed. *)
Theorem chat_signal options h r :
  let out := issued (chat kEnvs isEmpty options) h r in
  match requestId options with
  | Some id =>
      if truthy id then
        let made := h _ NewAbortController (onClient (initialised kEnvs) (now r)) in
        let c := fst made in
        controllersMade out = 1
        /\ match assigned id (AbortOf c) (openai (snd made)) with
           | None =>
               fst (chat kEnvs isEmpty options h r) = Exn "TypeError"
               /\ signals out = []
           | Some this' =>
               let pending := mkSys this' (outside (snd made)) in
               (forall tr,
                   aborts (issued (cancel kEnvs id) h (mkRun pending tr)) = [c])
               /\ forall cl, _client this' = Some cl ->
                    exists req,
                      signals out = [Some c]
                      /\ now (snd (chat kEnvs isEmpty options h r))
                         = onClient (setCallbacks (delete id))
                             (snd (h _ (Create cl req (Some c)) pending))
           end
      else controllersMade out = 0 /\ signals out = [None]
  | None => controllersMade out = 0 /\ signals out = [None]
  end.
Proof.
  intros out. subst out. unfold issued, chat, ifId, register.
  rewrite (bind_val _ _ _ _ _ _ (_init_eq kEnvs h r)).
  unfold theClient, call, when, log, logError.
  unfold bind, catch, read, emit, trigger, update, ret, settle, throw.
  simpl.
  pose proof (proj1 (initialised_client (openai (now r)))) as Hcl.
  destruct (requestId options) as [id|]; simpl.
  - destruct (truthy id); simpl.
    + destruct (default false (trace_ options) && _); simpl;
        destruct (h _ NewAbortController _) as [c s1] eqn:Hmade; simpl;
        destruct (assigned id (AbortOf c) (openai s1)) as [this'|] eqn:Has; simpl.
      all: try (split; [crack_goal; settle_trace; reflexivity|];
                split;
                [ intros tr; unfold issued;
                  erewrite cancel_callback
                    by exact (assigned_property _ _ _ _ Has);
                  simpl; now rewrite drop_app_length
                | intros cl Hclient; rewrite Hclient;
                  exists (mkRequest
                            (defaultModel kEnvs options
                               (initialised kEnvs (openai (now r))))
                            (tools options) false
                            (systemMsg isEmpty options ++ [("user", user options)])
                            (responseFormat options) false);
                  unfold onClient; simpl;
                  crack_goal; settle_trace; split; reflexivity ]).
      all: crack_goal; settle_trace; repeat split; reflexivity.
    + crack_goal; try congruence; settle_trace; split; reflexivity.
  - crack_goal; try congruence; settle_trace; split; reflexivity.
Qed.

(** X14. When the request for a stream is rejected, [chatStream] does
    not throw: it logs the error and returns [undefined] at once, in the
    state the rejected call left: no chunk is awaited, [onStream] is not
    called and nothing is registered. *)
Theorem chatStream_request_rejected options onStream h r :
  exists cl req,
    _client (initialised kEnvs (openai (now r))) = Some cl
    /\ r_stream req = true
    /\ forall err s1,
        h _ (CreateStream cl req) (onClient (initialised kEnvs) (now r))
        = (Exn err, s1) ->
        let out := chatStream kEnvs isEmpty options onStream h r in
        let new := issued (chatStream kEnvs isEmpty options onStream) h r in
        fst out = Val None /\ now (snd out) = s1
        /\ awaited new = 0 /\ llmErrors new = [err] /\ streamCalls new = [].
Proof.
  destruct (_client (initialised kEnvs (openai (now r)))) as [cl|] eqn:Hcl;
    [|now destruct (proj1 (initialised_client (openai (now r))))].
  exists cl,
    (mkRequest (defaultModel kEnvs options (initialised kEnvs (openai (now r))))
       (tools options) true
       (systemMsg isEmpty options ++ [("user", user options)])
       (responseFormat options)
       (default (QWEN_ENABLE_SEARCH kEnvs) (enableSearch options))).
  split; [reflexivity|]. split; [reflexivity|]. intros err s1 Hrej out new.
  subst out new.
  unfold issued, chatStream, openStream, theClient, call, when, log, logError.
  unfold bind, catch, read, emit, trigger, update, ret, settle, throw.
  rewrite _init_eq. unfold onClient in *. simpl.
  destruct (default false (trace_ options) && _); simpl;
    rewrite Hcl; simpl; rewrite Hrej; simpl; settle_trace;
    repeat split; reflexivity.
Qed.

Lemma includes_keys_Some {V} (m : gmap string V) (k : string) :
  m !! k <> None -> includes (keys m) k = true.
Proof.
  intros Hsome. unfold includes, keys. apply bool_decide_eq_true.
  destruct (m !! k) as [v|] eqn:Hk; [|congruence].
  apply list_elem_of_fmap. exists (k, v). split; [reflexivity|].
  now apply elem_of_map_to_list.
Qed.

Lemma isAborted_only_with_id requestId (this : OpenAIClient) :
  isAborted requestId this = true -> truthy_opt requestId = true.
Proof.
  unfold isAborted. destruct requestId as [id|]; [|discriminate].
  simpl. now intros [Ht _]%andb_true_iff.
Qed.

Lemma texts_cons (chunk : Chunk) (rest : list Chunk) :
  texts (chunk :: rest)
  = if truthy (chunkText chunk) then chunkText chunk :: texts rest
    else texts rest.
Proof. reflexivity. Qed.

Lemma truthy_false_empty (s : string) : truthy s = false -> s = "".
Proof. now destruct s. Qed.

Lemma consume_unfold requestId onStream c chunk rest content n h r :
  consume requestId onStream c (chunk :: rest) content n h r
  = bind (call (AwaitNext c)) (fun _ =>
      bind (onChunk requestId onStream chunk content n) (fun t =>
        match t with
        | Stop content chunkCount => ret (content, chunkCount)
        | Continue content chunkCount =>
            consume requestId onStream c rest content chunkCount
        end)) h r.
Proof. reflexivity. Qed.

(** The text and the count the loop ends with. *)
Lemma consume_text requestId onStream c chunks :
  forall content n h r ct k r',
    consume requestId onStream c chunks content n h r = (Val (ct, k), r') ->
    (ct = content +:+ join (map chunkText chunks)
     /\ k = n + length (texts chunks))
    \/ (truthy_opt requestId = true /\ ct = "").
Proof.
  induction chunks as [|chunk rest IH]; intros content n h r ct k r' Hrun.
  - left. simpl in Hrun. unfold call, bind, trigger, settle, ret, throw in Hrun.
    simpl in Hrun. crack Hrun; try discriminate. inversion Hrun; subst.
    unfold join. simpl. rewrite append_nil_r. split; [reflexivity | lia].
  - rewrite consume_unfold in Hrun. unfold bind at 1 in Hrun.
    destruct (call (AwaitNext c) h r) as [[[]|err] r1]; [|discriminate].
    unfold bind at 1 in Hrun. unfold onChunk in Hrun.
    rewrite (bind_read (E:=Event)) in Hrun. cbv beta in Hrun.
    destruct (isAborted requestId (openai (now r1))) eqn:Hab.
    + right. unfold log, bind, emit, ret in Hrun. simpl in Hrun.
      inversion Hrun; subst. split; [|reflexivity].
      exact (isAborted_only_with_id _ _ Hab).
    + rewrite texts_cons, map_cons, join_cons.
      destruct (truthy (chunkText chunk)) eqn:Htext.
      * unfold bind at 1 in Hrun.
        destruct ((match onStream with Some f => f (chunkText chunk)
                   | None => ret tt end) h r1) as [[[]|err] r2];
          [|discriminate].
        unfold ret at 1 in Hrun. cbv beta iota in Hrun.
        destruct (IH _ _ _ _ _ _ _ Hrun) as [[-> ->]|Hright]; [left|now right].
        rewrite append_assoc. split; [reflexivity | simpl; lia].
      * unfold ret at 1 in Hrun. cbv beta iota in Hrun.
        destruct (IH _ _ _ _ _ _ _ Hrun) as [[-> ->]|Hright]; [left|now right].
        now rewrite (truthy_false_empty _ Htext).
Qed.

Lemma closeStream_value options res h r a r' :
  closeStream isEmpty options res h r = (Val a, r') ->
  a = withDefault isEmpty (fst res) None.
Proof.
  intros Hrun. unfold closeStream, ifId, when, log in Hrun.
  unfold bind, update, emit, read, ret in Hrun. simpl in Hrun.
  crack Hrun; now inversion Hrun.
Qed.

(** X15. What [chatStream] returns for a stream it obtained is all or
    nothing: the concatenation, in order, of the texts of all the chunks
    that arrived (as [withDefault] passes it on), or, for a request with
    an id only, the result of an aborted loop.  Without a request id it
    is always the concatenation. *)
Theorem chatStream_text options onStream h r stream r1 a r' :
  openStream kEnvs isEmpty options h r = (Val (Some stream), r1) ->
  chatStream kEnvs isEmpty options onStream h r = (Val a, r') ->
  let full := join (map chunkText (chunks stream)) in
  (a = withDefault isEmpty full None
   \/ (truthy_opt (requestId options) = true
       /\ a = withDefault isEmpty "" None))
  /\ (truthy_opt (requestId options) = false ->
      a = withDefault isEmpty full None).
Proof.
  intros Hopen Hrun full. subst full. unfold chatStream in Hrun.
  rewrite (bind_val _ _ _ _ _ _ Hopen) in Hrun. unfold bind at 1 in Hrun.
  destruct (consume _ _ _ _ _ _ h r1) as [[[ct k]|err] r2] eqn:Hloop;
    [|discriminate].
  apply closeStream_value in Hrun. simpl in Hrun.
  destruct (consume_text _ _ _ _ _ _ _ _ _ _ _ Hloop) as [[-> _]|[Hid ->]].
  - change ("" +:+ ?x) with x in Hrun. split; [now left | now intros _].
  - split; [now right | congruence].
Qed.

(** ** The streaming glue *)

Lemma streamCalls_app (l l' : list (Call Event)) :
  streamCalls (l ++ l') = (streamCalls l ++ streamCalls l')%list.
Proof. apply flat_map_app. Qed.

Lemma onStream_passes requestId stream text h r :
  streamStatus (outside (now r)) stream <> "canceled" ->
  onStream kEnvs requestId stream text h r
  = (Val tt,
     mkRun (snd (h _ (AddResponse stream text) (now r)))
           (trace r ++ [Called (AddResponse stream text)])).
Proof.
  intros Hlive. unfold onStream. rewrite (bind_read (E:=Event)).
  destruct (String.eqb_spec (streamStatus (outside (now r)) stream) "canceled")
    as [Heq|_]; [contradiction|].
  unfold trigger. now destruct (h _ _ (now r)) as [[] s1].
Qed.

(** X16. While the [StreamResponse] is not canceled, the [onStream]
    closure hands the chunk to [addResponse], once and unchanged, and
    does nothing else: it does not cancel and does not touch the
    client. *)
Theorem onStream_live requestId stream text h r :
  streamStatus (outside (now r)) stream <> "canceled" ->
  onStream kEnvs requestId stream text h r
  = (Val tt,
     mkRun (snd (h _ (AddResponse stream text) (now r)))
           (trace r ++ [Called (AddResponse stream text)]))
  /\ streamCalls (issued (onStream kEnvs requestId stream text) h r)
     = [SAddResponse stream text]
  /\ aborts (issued (onStream kEnvs requestId stream text) h r) = [].
Proof.
  intros Hlive. pose proof (onStream_passes requestId stream text h r Hlive) as Heq.
  split; [exact Heq|]. unfold issued. rewrite Heq. simpl.
  rewrite drop_app_length. split; reflexivity.
Qed.

(** X17. In the loop of [chatStream] run with the [onStream] closure of
    the bot, as long as the environment keeps the request registered and
    the [StreamResponse] uncanceled, the texts of the chunks reach
    [addResponse] in the order of arrival, each once and none lost, and
    the loop ends with their concatenation. *)
Theorem stream_order requestId stream c h chunks :
  (forall X (e : Event X) s,
      steady requestId stream s -> steady requestId stream (snd (h X e s))) ->
  forall content n r ct k r',
    steady requestId stream (now r) ->
    consume (Some requestId) (Some (onStream kEnvs requestId stream)) c chunks
            content n h r = (Val (ct, k), r') ->
    streamCalls (trace r')
    = (streamCalls (trace r) ++ map (SAddResponse stream) (texts chunks))%list
    /\ ct = content +:+ join (texts chunks)
    /\ steady requestId stream (now r').
Proof.
  intros Hkeep. induction chunks as [|chunk rest IH];
    intros content n r ct k r' Hsteady Hrun.
  - simpl in Hrun. unfold bind at 1 in Hrun. rewrite call_eq in Hrun.
    pose proof (Hkeep _ (AwaitNext c) _ Hsteady) as Hs1.
    destruct (h _ (AwaitNext c) (now r)) as [[[]|err] s1]; [|discriminate].
    simpl in *. inversion Hrun; subst. simpl.
    rewrite streamCalls_app. simpl. rewrite !app_nil_r.
    unfold join. simpl. now rewrite append_nil_r.
  - rewrite consume_unfold in Hrun. unfold bind at 1 in Hrun.
    rewrite call_eq in Hrun.
    pose proof (Hkeep _ (AwaitNext c) _ Hsteady) as Hs1.
    destruct (h _ (AwaitNext c) (now r)) as [[[]|err] s1]; [|discriminate].
    simpl in Hs1, Hrun. unfold bind at 1 in Hrun. unfold onChunk in Hrun.
    rewrite (bind_read (E:=Event)) in Hrun. cbv beta in Hrun.
    assert (Hab : isAborted (Some requestId) (openai s1) = false).
    { unfold isAborted. rewrite (includes_keys_Some _ _ (proj1 Hs1)).
      apply andb_false_r. }
    cbn [now] in Hrun. rewrite Hab in Hrun. rewrite texts_cons.
    destruct (truthy (chunkText chunk)) eqn:Htext.
    + unfold bind at 1 in Hrun.
      match type of Hrun with
      | context [onStream kEnvs requestId stream ?t h ?r0] =>
          pose proof (onStream_passes requestId stream t h r0 (proj2 Hs1))
            as Hlive
      end.
      rewrite Hlive in Hrun. unfold ret at 1 in Hrun. cbv beta iota in Hrun.
      pose proof (Hkeep _ (AddResponse stream (chunkText chunk)) _ Hs1) as Hs2.
      cbn [now trace] in Hrun.
      destruct (IH _ _ (mkRun _ _) _ _ _ Hs2 Hrun) as (Hcalls & -> & Hend).
      split; [|split; [|exact Hend]].
      * rewrite Hcalls. simpl trace. rewrite !streamCalls_app. simpl.
        now rewrite <- !app_assoc.
      * now rewrite join_cons, append_assoc.
    + unfold ret at 1 in Hrun. cbv beta iota in Hrun.
      destruct (IH _ _ (mkRun _ _) _ _ _ Hs1 Hrun) as (Hcalls & -> & Hend).
      split; [|split; [reflexivity|exact Hend]].
      rewrite Hcalls. simpl trace. rewrite streamCalls_app. simpl.
      now rewrite app_nil_r.
Qed.

Lemma onSettled_empty requestId stream onFinished answer h r :
  truthy_opt answer = false ->
  streamCalls (issued (onSettled requestId stream onFinished answer) h r)
  = [SFinish stream answer; SCancel stream]
  /\ forall other,
      onSettled requestId stream other answer h r
      = onSettled requestId stream onFinished answer h r.
Proof.
  intros Ht. unfold onSettled, log. rewrite Ht. split; [|reflexivity].
  unfold issued, bind, emit, trigger, ret. simpl.
  destruct (h _ (Finish stream answer) (now r)) as [[] s1]; simpl.
  destruct (h _ (CancelStream stream) s1) as [[] s2]; simpl.
  settle_trace. reflexivity.
Qed.

(** X18. When the request settles, [onFinished] runs only for a
    non-empty answer, after the [StreamResponse] was finished with it.
    Without an answer the stream is finished and then canceled, and
    [onFinished] is not run at all. *)
Theorem onSettled_spec requestId stream onFinished answer h r :
  let ended := mkRun (now r)
                 (trace r ++ [Called (Log (BotStreamEnded requestId
                                             (truthy_opt answer)))]) in
  if truthy_opt answer then
    onSettled requestId stream onFinished answer h r
    = bind (trigger (Finish stream answer))
           (fun _ => match onFinished with
                     | Some f => f (default "" answer)
                     | None => ret tt
                     end) h ended
    /\ answer = Some (default "" answer)
  else
    streamCalls (issued (onSettled requestId stream onFinished answer) h r)
    = [SFinish stream answer; SCancel stream]
    /\ forall other,
        onSettled requestId stream other answer h r
        = onSettled requestId stream onFinished answer h r.
Proof.
  intros ended. subst ended.
  destruct (truthy_opt answer) eqn:Ht.
  - unfold onSettled, log. rewrite Ht, (bind_emit (E:=Event)).
    split; [reflexivity|].
    destruct answer; [reflexivity | discriminate].
  - now apply onSettled_empty.
Qed.

(** X19. A request whose stream is refused ends the [StreamResponse]:
    the task started by [chatWithStreamResponse] finishes it without an
    answer and cancels it, and never runs [onFinished]. *)
Theorem streamTask_refused options onFinished requestId stream h r r1 :
  openStream kEnvs isEmpty (withRequest options requestId) h r = (Val None, r1) ->
  streamTask kEnvs isEmpty options onFinished requestId stream h r
  = onSettled requestId stream None None h r1
  /\ streamCalls (issued (onSettled requestId stream None None) h r1)
     = [SFinish stream None; SCancel stream].
Proof.
  intros Hopen. split.
  - unfold streamTask, chatStream.
    rewrite (bind_bind (E:=Event)). rewrite (bind_val _ _ _ _ _ _ Hopen).
    rewrite (bind_ret (E:=Event)).
    exact (proj2 (onSettled_empty requestId stream None None h r1 eq_refl)
                 onFinished).
  - exact (proj1 (onSettled_empty requestId stream None None h r1 eq_refl)).
Qed.
End ClientMore.

(** ** A chunk that arrives after the cancellation *)

Section CanceledStream.
Import OpenAI Observe.
Context {W : Type} `{StreamState W}.
Variable kEnvs : Envs.
Variable isEmpty : string -> bool.
Implicit Types (h : Handler Event (Sys W)) (r : Run Event (Sys W)).

Ltac crack H :=
  repeat match type of H with
         | context [match ?x with _ => _ end] =>
             lazymatch x with
             | context [match _ with _ => _ end] => fail
             | _ => destruct x eqn:?; simpl in H
             end
         end.

(** [chatStream] enters its loop with the abort of the obtained stream
    assigned under the request id. *)
Lemma openStream_registered options id h r s r1 :
  requestId options = Some id -> truthy id = true ->
  openStream kEnvs isEmpty options h r = (Val (Some s), r1) ->
  mine id (AbortOf (controller s)) (now r1).
Proof.
  intros Hid Ht Hrun. unfold openStream, ifId, register in Hrun.
  rewrite Hid, Ht in Hrun.
  rewrite (bind_val _ _ _ _ _ _ (_init_eq kEnvs h r)) in Hrun.
  unfold theClient, call, when, log, logError in Hrun.
  unfold bind, catch, read, emit, trigger, update, ret, settle, throw in Hrun.
  simpl in Hrun.
  crack Hrun; try discriminate; inversion Hrun; subst; simpl;
    intros g Hg; simpl in Hg;
    match goal with
    | Has : assigned _ _ _ = Some _ |- _ => exact (assigned_own _ _ _ _ _ Has Hg)
    end.
Qed.

(** A turn of the loop run with the bot's closure leaves the entry of
    the request alone or removes it. *)
Lemma onChunk_mine id f stream chunk content n h r t r' :
  undisturbed h ->
  mine id f (now r) ->
  onChunk (Some id) (Some (onStream kEnvs id stream)) chunk content n h r
  = (Val t, r') ->
  mine id f (now r').
Proof.
  intros Hpriv Hmine Hrun. unfold onChunk in Hrun.
  rewrite (bind_read (E:=Event)) in Hrun. cbv beta in Hrun.
  destruct (isAborted (Some id) (openai (now r))).
  - unfold log, bind, emit, ret in Hrun. simpl in Hrun.
    inversion Hrun; subst. exact Hmine.
  - destruct (truthy (chunkText chunk)).
    + unfold bind at 1 in Hrun.
      destruct (onStream kEnvs id stream (chunkText chunk) h r)
        as [[[]|err] r1] eqn:Hcb; [|discriminate].
      unfold ret in Hrun. inversion Hrun; subst. clear Hrun.
      unfold onStream in Hcb. rewrite (bind_read (E:=Event)) in Hcb.
      destruct (String.eqb _ "canceled").
      * unfold log in Hcb. rewrite (bind_emit (E:=Event)) in Hcb.
        pose proof (cancel_effects kEnvs id h
                      (mkRun (now r)
                         (trace r ++ [Called (Log (BotStreamCanceled id))])))
          as (_ & _ & Hgone).
        rewrite Hcb in Hgone. simpl in Hgone.
        intros g Hg. congruence.
      * unfold trigger in Hcb.
        pose proof (Hpriv _ (AddResponse stream (chunkText chunk)) (now r)) as Hk.
        destruct (h _ (AddResponse stream (chunkText chunk)) (now r)) as [[] s1].
        inversion Hcb; subst. simpl in *. intros g Hg. apply Hmine.
        now rewrite <- Hk.
    + unfold ret in Hrun. inversion Hrun; subst. exact Hmine.
Qed.

Lemma consumed_mine id f stream c pre :
  forall content n h r content' n' r',
    undisturbed h ->
    mine id f (now r) ->
    consumed (Some id) (Some (onStream kEnvs id stream)) c pre content n h r
    = Some (content', n', r') ->
    mine id f (now r').
Proof.
  induction pre as [|chunk pre IH];
    intros content n h r content' n' r' Hpriv Hmine Hc; simpl in Hc.
  - inversion Hc; subst. exact Hmine.
  - unfold bind at 1 in Hc. rewrite call_eq in Hc.
    pose proof (Hpriv _ (AwaitNext c) (now r)) as Hk.
    destruct (h _ (AwaitNext c) (now r)) as [[[]|err] s1]; simpl in Hc;
      [|discriminate].
    destruct (onChunk _ _ chunk content n h _) as [[[ct k|ct k]|err] r1] eqn:Hturn;
      try discriminate.
    refine (IH _ _ _ _ _ _ _ Hpriv _ Hc).
    refine (onChunk_mine id f _ _ _ _ _ _ _ _ Hpriv _ Hturn).
    simpl. intros g Hg. apply Hmine. simpl in Hk. now rewrite <- Hk.
Qed.

(** The settlement of a request on a canceled [StreamResponse] that
    drops late calls. *)
Lemma onSettled_outside requestId stream a h r :
  alone h -> dropsLateCalls h stream ->
  streamStatus (outside (now r)) stream = "canceled" ->
  outside (now (snd (onSettled requestId stream None a h r))) = outside (now r).
Proof.
  intros Halone Hdrop Hst. unfold onSettled, log.
  rewrite (bind_emit (E:=Event)).
  destruct (Hdrop _ Hst) as [Hfin _]. specialize (Hfin a).
  destruct (truthy_opt a); unfold bind, trigger, ret; simpl.
  - destruct (h _ (Finish stream a) (now r)) as [[] s1]. exact Hfin.
  - destruct (h _ (Finish stream a) (now r)) as [[] s1] eqn:Hf. simpl in *.
    assert (Hst1 : streamStatus (outside s1) stream = "canceled")
      by now rewrite Hfin.
    destruct (Hdrop _ Hst1) as [_ Hcan].
    destruct (h _ (CancelStream stream) s1) as [[] s2]. simpl in *.
    now rewrite Hcan.
Qed.

(** C7. A chunk of the request that [chatWithStreamResponse] started,
    delivered to its [onStream] closure while the stream is "canceled"
    (delivered: it carries text, and the loop found the entry of the
    request in place).  The callback found under the request id is the
    abort of the stream of this very request; the turn makes no call on
    the [StreamResponse] and aborts that stream instead, once, removing
    the entry.  No later chunk reaches the closure: the loop waits once
    more and finds the entry gone, or the stream at its end; in the
    second case the text of the late chunk is what [chatStream] returns.
    What the request still hands to the [StreamResponse] is the
    settlement ([finish], then [cancel] without an answer), which a
    canceled [StreamResponse] drops: what is outside the client stays
    as it was when the chunk arrived. *)
Theorem chatWithStreamResponse_canceled options onFinished requestId stream
    h r s r1 pre chunk post content n r2 s3 :
  isEmpty "" = true ->
  truthy requestId = true ->
  undisturbed h ->
  openStream kEnvs isEmpty (withRequest options requestId) h r
  = (Val (Some s), r1) ->
  chunks s = (pre ++ chunk :: post)%list ->
  consumed (Some requestId) (Some (onStream kEnvs requestId stream))
           (controller s) pre "" 0 h r1
  = Some (content, n, r2) ->
  h _ (AwaitNext (controller s)) (now r2) = (Val tt, s3) ->
  _abortCallbacks (openai s3) !! requestId <> None ->
  truthy (chunkText chunk) = true ->
  streamStatus (outside s3) stream = "canceled" ->
  let closure := onStream kEnvs requestId stream in
  let arrived := mkRun s3 (trace r2 ++ [Called (AwaitNext (controller s))]) in
  _abortCallbacks (openai s3) !! requestId = Some (AbortOf (controller s))
  /\ onChunk (Some requestId) (Some closure) chunk content n h arrived
     = (Val (Continue (content +:+ chunkText chunk) (Datatypes.S n)),
        mkRun (onClient (setCallbacks (delete requestId))
                 (onClient (initialised kEnvs) s3))
              (trace arrived
               ++ [Called (Log (BotStreamCanceled requestId));
                   Called (Abort (controller s))]))
  /\ forall a r',
       chatStream kEnvs isEmpty (withRequest options requestId) (Some closure)
                  h r
       = (Val a, r') ->
       let late := drop (length (trace arrived)) (trace r') in
       streamCalls late = []
       /\ aborts late = [controller s]
       /\ awaited late = 1
       /\ a = match post with
              | [] => withDefault isEmpty (content +:+ chunkText chunk) None
              | _ :: _ => None
              end
       /\ streamTask kEnvs isEmpty options onFinished requestId stream h r
          = onSettled requestId stream onFinished a h r'
       /\ (alone h -> dropsLateCalls h stream ->
           outside (now (snd (onSettled requestId stream None a h r')))
           = outside s3).
Proof.
  intros Hempty Ht Hpriv Hopen Hchunks Hpre Hnext Hlive Htext Hst closure arrived.
  subst closure arrived.
  assert (Hmine1 : mine requestId (AbortOf (controller s)) (now r1))
    by exact (openStream_registered (withRequest options requestId) requestId
                h r s r1 eq_refl Ht Hopen).
  pose proof (consumed_mine _ _ _ _ _ _ _ _ _ _ _ _ Hpriv Hmine1 Hpre) as Hmine2.
  pose proof (Hpriv _ (AwaitNext (controller s)) (now r2)) as Hk3.
  rewrite Hnext in Hk3. simpl in Hk3.
  assert (Hreg : _abortCallbacks (openai s3) !! requestId
                 = Some (AbortOf (controller s))).
  { destruct (_abortCallbacks (openai s3) !! requestId) as [g|] eqn:Hg;
      [|congruence].
    f_equal. apply Hmine2. now rewrite <- Hk3. }
  split; [exact Hreg|].
  set (arrived := mkRun s3 (trace r2 ++ [Called (AwaitNext (controller s))])).
  set (canceled := onClient (setCallbacks (delete requestId))
                     (onClient (initialised kEnvs) s3)).
  assert (Hturn :
    onChunk (Some requestId) (Some (onStream kEnvs requestId stream)) chunk
            content n h arrived
    = (Val (Continue (content +:+ chunkText chunk) (Datatypes.S n)),
       mkRun canceled
             (trace arrived
              ++ [Called (Log (BotStreamCanceled requestId));
                  Called (Abort (controller s))]))).
  { unfold onChunk. rewrite (bind_read (E:=Event)). cbv beta.
    assert (Hab : isAborted (Some requestId) (openai (now arrived)) = false).
    { unfold isAborted. simpl. rewrite includes_keys_Some by congruence.
      apply andb_false_r. }
    rewrite Hab, Htext.
    erewrite bind_val.
    2:{ rewrite onStream_cancels by exact Hst.
        apply cancel_callback. unfold property. simpl. now rewrite Hreg. }
    unfold ret. simpl. now rewrite <- app_assoc. }
  split; [exact Hturn|].
  intros a r' Hrun late. subst late.
  pose proof Hrun as Hrun0. unfold chatStream in Hrun.
  rewrite (bind_val _ _ _ _ _ _ Hopen) in Hrun.
  cbn [OpenAI.requestId withRequest] in Hrun. rewrite Hchunks in Hrun.
  unfold bind at 1 in Hrun.
  rewrite (consume_consumed _ _ _ _ _ _ _ _ _ _ _ _ Hpre) in Hrun.
  rewrite consume_unfold in Hrun.
  rewrite (bind_val _ _ _ _ _ _ (call_val _ _ _ _ _ Hnext)) in Hrun.
  fold arrived in Hrun. rewrite (bind_val _ _ _ _ _ _ Hturn) in Hrun.
  cbv beta iota in Hrun. clear Hturn.
  set (tr := trace arrived) in *. clearbody tr.
  pose proof (Hpriv _ (AwaitNext (controller s)) canceled) as Hk5.
  assert (Hgone : _abortCallbacks (openai canceled) !! requestId = None)
    by (unfold canceled, onClient; simpl; apply lookup_delete_eq).
  destruct (h _ (AwaitNext (controller s)) canceled) as [[[]|err] s5] eqn:Hnext5;
    simpl in Hk5.
  2:{ exfalso. destruct post as [|chunk' post'].
      - simpl in Hrun. unfold bind at 1 in Hrun. rewrite call_eq in Hrun.
        cbn [now] in Hrun. rewrite Hnext5 in Hrun. simpl in Hrun.
        discriminate.
      - rewrite consume_unfold in Hrun. unfold bind at 1 in Hrun.
        rewrite call_eq in Hrun. cbn [now] in Hrun. rewrite Hnext5 in Hrun.
        simpl in Hrun. discriminate. }
  assert (Hloop :
    consume (Some requestId) (Some (onStream kEnvs requestId stream))
            (controller s) post (content +:+ chunkText chunk) (Datatypes.S n) h
            (mkRun canceled
               (tr
                ++ [Called (Log (BotStreamCanceled requestId));
                    Called (Abort (controller s))]))
    = (Val (match post with
            | [] => content +:+ chunkText chunk
            | _ :: _ => ""
            end, Datatypes.S n),
       mkRun s5
         (tr
          ++ [Called (Log (BotStreamCanceled requestId));
              Called (Abort (controller s));
              Called (AwaitNext (controller s))]
          ++ match post with
             | [] => []
             | _ :: _ => [Called (Log (StreamAborted requestId))]
             end))).
  { destruct post as [|chunk' post'].
    - simpl. unfold bind. rewrite call_eq. cbn [now]. rewrite Hnext5.
      unfold ret. simpl. now rewrite <- !app_assoc.
    - erewrite consume_aborted; [|exact Hnext5|].
      + simpl. now rewrite <- !app_assoc.
      + apply isAborted_unregistered; [exact Ht|]. now rewrite Hk5. }
  rewrite Hloop in Hrun. clear Hloop.
  unfold closeStream, ifId, idOrNone in Hrun.
  cbn [OpenAI.requestId withRequest trace_ fst snd] in Hrun.
  rewrite Ht in Hrun.
  unfold when, log, bind, update, emit, read, ret in Hrun. simpl in Hrun.
  assert (Hanswer : withDefault isEmpty
                      match post with
                      | [] => content +:+ chunkText chunk
                      | _ :: _ => ""
                      end None
                    = match post with
                      | [] => withDefault isEmpty (content +:+ chunkText chunk) None
                      | _ :: _ => None
                      end).
  { destruct post; [reflexivity|]. unfold withDefault. now rewrite Hempty. }
  assert (Hout5 : alone h -> outside s5 = outside s3).
  { intros Halone.
    pose proof (Halone _ (AwaitNext (controller s)) canceled eq_refl) as Ho.
    rewrite Hnext5 in Ho. exact Ho. }
  pose proof (bind_val _ (onSettled requestId stream onFinished) _ _ _ _ Hrun0)
    as Htask.
  destruct (traceOutput (openai s5)); simpl in Hrun;
    inversion Hrun; subst a r'; clear Hrun;
    (split; [|split; [|split; [|split; [exact Hanswer|split; [exact Htask|]]]]]);
    try (simpl; rewrite <- ?app_assoc, drop_app_length;
         destruct post; reflexivity);
    intros Halone Hdrop;
    rewrite onSettled_outside; simpl; auto;
    now rewrite (Hout5 Halone).
Qed.
End CanceledStream.

(** ** Concrete runs of the further properties *)

Lemma switchCommand_run_witness :
  let out := issued (Speaker.run (Speaker.switchCommand Demo.speaker)
                       Scenes.switchTo)
               Demo.quiet (Demo.fresh Demo.idle) in
  Observe.switched out = ["小美"]
  /\ Speaker.responses out
     = [Speaker.say "正在切换音色，请稍等...";
        Speaker.mkOpts (Some "音色已切换！") None None (Some false) None].
Proof.
  intros out. subst out.
  destruct (switchCommand_run Demo.speaker Scenes.switchTo Demo.quiet
              (Demo.fresh Demo.idle) "把音色切换到") as (rest & Htext & Hrun);
    [vm_compute; reflexivity|].
  assert (rest = "小美") as -> by (vm_compute in Htext; now inversion Htext).
  exact Hrun.
Defined.

Lemma enterKeepAlive_on_witness :
  let out := issued (Speaker.enterKeepAlive Demo.speaker) Demo.quiet
               (Demo.fresh Demo.idle) in
  Speaker.superEnters out = 1.
Proof.
  intros out. subst out.
  destruct (enterKeepAlive_on Demo.speaker Demo.quiet (Demo.fresh Demo.idle))
    as [_ Hent]; [reflexivity|].
  rewrite Hent. vm_compute. reflexivity.
Defined.

Lemma no_answer_no_playback_witness :
  Speaker.responses
    (issued (Speaker.askAIForAnswer Demo.speaker Demo.hello) Scenes.silentAI
       (Demo.fresh Demo.active))
  = [Speaker.say "让我先想想"].
Proof.
  rewrite (no_answer_no_playback Demo.speaker Demo.hello Scenes.silentAI
             (Demo.fresh Demo.active)).
  - vm_compute. reflexivity.
  - intros f s _. reflexivity.
Defined.

Lemma done_excludes_error_witness :
  Speaker.responses
    (issued (Speaker.step_error Demo.speaker Demo.hello Scenes.answered)
       Demo.failingAI (Demo.fresh Demo.active))
  = [].
Proof.
  apply (done_excludes_error Demo.speaker Demo.hello Scenes.answered Demo.quiet
           (Demo.fresh Demo.idle)).
  vm_compute. discriminate.
Defined.

Lemma askAIForAnswerOver_stop_witness :
  let out := Speaker.askAIForAnswerOver
               ([Speaker.step_thinking Demo.speaker] ++
                Scenes.halt :: [Speaker.step_askAI Demo.speaker])
               Demo.hello Demo.quiet (Demo.fresh Demo.idle) in
  fst out = Val tt /\ Speaker.asked (trace (snd out)) = [].
Proof.
  intros out. subst out.
  erewrite (askAIForAnswerOver_stop [Speaker.step_thinking Demo.speaker]
              [Speaker.step_askAI Demo.speaker] Scenes.halt Demo.hello
              Demo.quiet (Demo.fresh Demo.idle)).
  2-4: (vm_compute; reflexivity).
  vm_compute. split; reflexivity.
Defined.

Lemma chatStream_text_witness :
  fst (OpenAI.chatStream DemoAI.envs DemoAI.isEmpty (DemoAI.ask None) None
         DemoAI.server (DemoAI.start "idle"))
  = Val (Some "你好！").
Proof.
  destruct (OpenAI.chatStream DemoAI.envs DemoAI.isEmpty (DemoAI.ask None) None
              DemoAI.server (DemoAI.start "idle")) as [[a|err] r'] eqn:Hrun;
    [|vm_compute in Hrun; discriminate].
  destruct (OpenAI.openStream DemoAI.envs DemoAI.isEmpty (DemoAI.ask None)
              DemoAI.server (DemoAI.start "idle")) as [o r1] eqn:Hopen.
  assert (o = Val (Some DemoAI.greeting)) as ->
    by (vm_compute in Hopen; injection Hopen as <- _; reflexivity).
  destruct (chatStream_text DemoAI.envs DemoAI.isEmpty (DemoAI.ask None) None
              DemoAI.server (DemoAI.start "idle") DemoAI.greeting r1 a r'
              Hopen Hrun) as [_ Hfull].
  simpl. rewrite Hfull; reflexivity.
Defined.

Lemma onStream_live_witness :
  let out := OpenAI.onStream DemoAI.envs "r1" 0 "好" DemoAI.server
               (DemoAI.registered "idle") in
  OpenAI.streamCalls (trace (snd out)) = [OpenAI.SAddResponse 0 "好"]
  /\ DemoAI.heard (OpenAI.outside (now (snd out))) = ["好"].
Proof.
  intros out. subst out.
  destruct (onStream_live DemoAI.envs "r1" 0 "好" DemoAI.server
              (DemoAI.registered "idle")) as [Heq _]; [discriminate|].
  rewrite Heq. vm_compute. split; reflexivity.
Defined.

Lemma calm_steady X (e : OpenAI.Event X) s :
  Observe.steady "r1" 0 s -> Observe.steady "r1" 0 (snd (Scenes.calm X e s)).
Proof.
  intros [Hreg Hlive]. destruct e; simpl; split;
    first [exact Hreg | exact Hlive | discriminate].
Qed.

Lemma stream_order_witness :
  let out := OpenAI.consume (Some "r1") (Some (OpenAI.onStream DemoAI.envs "r1" 0))
               7 (OpenAI.chunks DemoAI.greeting) "" 0 Scenes.calm
               (DemoAI.registered "idle") in
  fst out = Val ("你好！", 3)
  /\ OpenAI.streamCalls (trace (snd out))
     = [OpenAI.SAddResponse 0 "你"; OpenAI.SAddResponse 0 "好";
        OpenAI.SAddResponse 0 "！"].
Proof.
  intros out. subst out.
  destruct (OpenAI.consume (Some "r1") (Some (OpenAI.onStream DemoAI.envs "r1" 0))
              7 (OpenAI.chunks DemoAI.greeting) "" 0 Scenes.calm
              (DemoAI.registered "idle")) as [[[ct k]|err] r'] eqn:Hrun;
    [|vm_compute in Hrun; discriminate].
  assert (Hsteady : Observe.steady "r1" 0 (now (DemoAI.registered "idle")))
    by (split; vm_compute; discriminate).
  destruct (stream_order DemoAI.envs "r1" 0 7 Scenes.calm
              (OpenAI.chunks DemoAI.greeting) calm_steady "" 0
              (DemoAI.registered "idle") ct k r' Hsteady Hrun)
    as (Hcalls & Hct & _).
  split; [|exact Hcalls].
  vm_compute in Hrun. injection Hrun as <- <- _. reflexivity.
Defined.

Lemma streamTask_refused_witness :
  let out := OpenAI.streamTask DemoAI.envs DemoAI.isEmpty (DemoAI.ask None) None
               "r1" 0 DemoAI.down (DemoAI.start "idle") in
  fst out = Val tt
  /\ OpenAI.streamCalls (trace (snd out))
     = [OpenAI.SFinish 0 None; OpenAI.SCancel 0].
Proof.
  intros out. subst out.
  destruct (OpenAI.openStream DemoAI.envs DemoAI.isEmpty
              (OpenAI.withRequest (DemoAI.ask None) "r1") DemoAI.down
              (DemoAI.start "idle")) as [o r1] eqn:Hopen.
  assert (o = Val None) as -> by (vm_compute in Hopen; congruence).
  destruct (streamTask_refused DemoAI.envs DemoAI.isEmpty (DemoAI.ask None)
              None "r1" 0 DemoAI.down (DemoAI.start "idle") r1 Hopen)
    as [Heq _].
  rewrite Heq. vm_compute in Hopen. injection Hopen as <-.
  vm_compute. split; reflexivity.
Defined.

(** ** The bot's answer to a question *)

Section BotFacts.
Import Bot.
Context {W : Type}.
Variable buildPrompt : string -> list (string * string) -> string.
Variable formatMsg : string -> string -> Z -> string.
Variable trim : string -> string.
Variable self : MyBot.
Implicit Types (h : Handler Event W) (r : Run Event W).

Ltac run_ask :=
  unfold issued, ask, onFinished, nonNull, log, when, call, bind, trigger,
    emit, settle, ret, throw; simpl.

Ltac crack_goal :=
  repeat match goal with
         | |- context [match ?x with _ => _ end] =>
             lazymatch x with
             | context [match _ with _ => _ end] => fail
             | _ => destruct x eqn:?; simpl
             end
         end.

Ltac settle_trace := rewrite <- ?app_assoc, ?drop_app_length, ?drop_all; simpl.

(** X20. Without a memory, [ask] answers with the empty object right
    after [manager.get()]: nothing else is read, nothing is stored and
    no request is started. *)
Theorem ask_without_memory msg h r cfg s1 :
  h _ ManagerGet (now r) = (Val cfg, s1) ->
  memory cfg = None ->
  ask buildPrompt formatMsg trim self msg h r
  = (Val (Speaker.mkAnswer None None),
     mkRun s1 (trace r ++ [Called ManagerGet])).
Proof.
  intros Hget Hmem. run_ask. rewrite Hget. simpl. now rewrite Hmem.
Qed.


(** X22. When the bot, the master or the room is unknown, [ask] fails
    before it writes: nothing is stored and no request is started. *)
Theorem ask_needs_profiles msg h r cfg s1 :
  h _ ManagerGet (now r) = (Val cfg, s1) ->
  memory cfg <> None ->
  bot cfg = None \/ master cfg = None \/ room cfg = None ->
  let out := issued (ask buildPrompt formatMsg trim self msg) h r in
  (exists err, fst (ask buildPrompt formatMsg trim self msg h r) = Exn err)
  /\ saves out = [] /\ starts out = [].
Proof.
  intros Hget Hmem Hmissing out. subst out. run_ask. rewrite Hget. simpl.
  destruct (memory cfg) as [mem|]; [clear Hmem|congruence].
  destruct (bot cfg) as [b|], (master cfg) as [m|], (room cfg) as [rm|];
    try (exfalso; clear - Hmissing; intuition discriminate);
    crack_goal; unfold saves, starts; settle_trace;
    (split; [eexists; reflexivity | split; reflexivity]).
Qed.

(** X23. The closure [onFinished] stores a non-empty reply once, under
    the context it captured, with the bot as its sender and the time
    read when the reply ended; an empty reply is not stored and leaves
    the run as it was.  It never starts a request. *)
Theorem onFinished_saves ctx text h r :
  let out := issued (onFinished ctx text) h r in
  starts out = []
  /\ saves out
     = (if truthy text
        then [(ctx, mkNew text (fst (h _ DateNow (now r))) (ctx_bot ctx))]
        else [])
  /\ (truthy text = false -> onFinished ctx text h r = (Val tt, r)).
Proof.
  intros out. subst out. run_ask.
  destruct (truthy text); simpl.
  - crack_goal; unfold saves, starts; settle_trace;
      (split; [reflexivity | split; [reflexivity | discriminate]]).
  - rewrite drop_all. repeat split; reflexivity.
Qed.
End BotFacts.

Lemma ask_without_memory_witness :
  fst (Scenes.question (Scenes.store Scenes.forgetful) Scenes.dawn)
  = Val (Speaker.mkAnswer None None).
Proof.
  unfold Scenes.question.
  erewrite (ask_without_memory Scenes.plainPrompt Scenes.plainMsg Scenes.asIs
              Scenes.theBot Demo.hello (Scenes.store Scenes.forgetful)
              Scenes.dawn).
  2-3: reflexivity.
  reflexivity.
Defined.


Lemma ask_needs_profiles_witness :
  let out := issued Scenes.question (Scenes.store Scenes.roomless) Scenes.dawn in
  Bot.saves out = [] /\ Bot.starts out = [].
Proof.
  intros out. subst out.
  refine (proj2 (ask_needs_profiles Scenes.plainPrompt Scenes.plainMsg
                   Scenes.asIs Scenes.theBot Demo.hello
                   (Scenes.store Scenes.roomless) Scenes.dawn Scenes.roomless tt
                   eq_refl _ _)).
  - discriminate.
  - right. right. reflexivity.
Defined.

(** ** Concrete runs of the cancellation *)

Lemma finalised_undisturbed : Observe.undisturbed Scenes.finalised.
Proof.
  intros X e s. destruct e; simpl; try reflexivity;
    destruct (String.eqb _ "canceled"); reflexivity.
Qed.

Lemma finalised_alone : Observe.alone Scenes.finalised.
Proof. intros X e s He. destruct e; simpl in *; try reflexivity; discriminate. Qed.

Lemma finalised_drops : Observe.dropsLateCalls Scenes.finalised 0.
Proof.
  intros s Hst. simpl in Hst. split; [intros a|]; simpl; now rewrite Hst.
Qed.

Lemma chatWithStreamResponse_canceled_witness :
  let out := OpenAI.streamTask DemoAI.envs DemoAI.isEmpty (DemoAI.ask None)
               None "r1" 0 Scenes.finalised (DemoAI.start "canceled") in
  fst out = Val tt
  /\ OpenAI.streamCalls (trace (snd out))
     = [OpenAI.SFinish 0 None; OpenAI.SCancel 0]
  /\ OpenAI.aborts (trace (snd out)) = [7]
  /\ OpenAI.outside (now (snd out)) = DemoAI.mkRoom "canceled" [].
Proof.
  intros out. subst out.
  destruct (chatWithStreamResponse_canceled DemoAI.envs DemoAI.isEmpty
              (DemoAI.ask None) None "r1" 0 Scenes.finalised
              (DemoAI.start "canceled") DemoAI.greeting Scenes.entered
              [] (DemoAI.chunkOf "你") [DemoAI.chunkOf "好"; DemoAI.chunkOf "！"]
              "" 0 Scenes.entered (now Scenes.entered))
    as (_ & _ & Hrest).
  1-2: reflexivity.
  1: exact finalised_undisturbed.
  1-4: (vm_compute; reflexivity).
  1: (vm_compute; discriminate).
  1-2: reflexivity.
  destruct (OpenAI.chatStream DemoAI.envs DemoAI.isEmpty
              (OpenAI.withRequest (DemoAI.ask None) "r1")
              (Some (OpenAI.onStream DemoAI.envs "r1" 0)) Scenes.finalised
              (DemoAI.start "canceled")) as [[a|err] r'] eqn:Hrun;
    [|vm_compute in Hrun; discriminate].
  destruct (Hrest a r' eq_refl) as (_ & _ & _ & -> & Htask & Hout).
  rewrite Htask.
  specialize (Hout finalised_alone finalised_drops).
  vm_compute in Hrun. injection Hrun as <-.
  split; [reflexivity|]. split; [reflexivity|]. split; [reflexivity|].
  exact Hout.
Defined.

Lemma cancel_twice_witness :
  let twice := bind (OpenAI.cancel DemoAI.envs "r1")
                    (fun _ => OpenAI.cancel DemoAI.envs "r1")
                    DemoAI.server (DemoAI.registered "idle") in
  fst twice = Val tt /\ OpenAI.aborts (trace (snd twice)) = [7].
Proof.
  intros twice. subst twice.
  destruct (cancel_twice DemoAI.envs "r1" DemoAI.server
              (DemoAI.registered "idle")) as (Hret & _ & _ & Hab & _);
    [reflexivity|].
  split; [exact Hret | exact Hab].
Defined.

Lemma chat_never_rejects_witness :
  let run := OpenAI.chat DemoAI.envs DemoAI.isEmpty (DemoAI.ask None) in
  fst (run DemoAI.down (DemoAI.start "idle")) = Val None
  /\ Observe.llmErrors (issued run DemoAI.down (DemoAI.start "idle"))
     = ["offline"].
Proof.
  intros run. subst run.
  destruct (chat_never_rejects DemoAI.envs DemoAI.isEmpty (DemoAI.ask None)
              DemoAI.down (DemoAI.start "idle")) as (_ & Hret & Hdown & _).
  destruct (Hret eq_refl) as (m & r' & Hrun).
  destruct (Hdown "offline" (fun _ _ _ _ => eq_refl) m r' Hrun) as [-> Herr].
  rewrite Hrun. split; [reflexivity | exact Herr].
Defined.

Lemma cancel_plain_witness :
  let out := OpenAI.cancel DemoAI.envs "r1" DemoAI.server
               (DemoAI.registered "idle") in
  fst out = Val tt
  /\ OpenAI.aborts (trace (snd out)) = [7]
  /\ OpenAI._abortCallbacks (OpenAI.openai (now (snd out))) !! "r1" = None.
Proof.
  intros out. subst out.
  destruct (cancel_plain DemoAI.envs "r1" DemoAI.server
              (DemoAI.registered "idle")) as (Hret & Hab & Hreg & _);
    [reflexivity|].
  split; [exact Hret|]. split; [exact Hab|].
  rewrite Hreg. apply lookup_delete_eq.
Defined.

Lemma returned_unregistered_witness :
  let out := OpenAI.chatStream DemoAI.envs DemoAI.isEmpty
               (DemoAI.ask (Some "r1")) None DemoAI.server
               (DemoAI.start "idle") in
  fst out = Val (Some "你好！") /\ OpenAI.unregistered "r1" (now (snd out)).
Proof.
  intros out. subst out.
  destruct (OpenAI.chatStream DemoAI.envs DemoAI.isEmpty
              (DemoAI.ask (Some "r1")) None DemoAI.server
              (DemoAI.start "idle")) as [[a|err] r'] eqn:Hrun;
    [|vm_compute in Hrun; discriminate].
  destruct (OpenAI.openStream DemoAI.envs DemoAI.isEmpty
              (DemoAI.ask (Some "r1")) DemoAI.server (DemoAI.start "idle"))
    as [o r1] eqn:Hopen.
  assert (o = Val (Some DemoAI.greeting)) as ->
    by (vm_compute in Hopen; injection Hopen as <- _; reflexivity).
  pose proof (proj2 (returned_unregistered DemoAI.envs DemoAI.isEmpty
                       (DemoAI.ask (Some "r1")) None "r1" DemoAI.server
                       (DemoAI.start "idle") eq_refl eq_refl)
                    DemoAI.greeting r1 a r' Hopen Hrun) as Hgone.
  split; [vm_compute in Hrun; now injection Hrun as <- _ | exact Hgone].
Defined.
